(** * GoodNews scraping client: the wire protocol of [scraping/main.py]

    A shallow embedding of the collector-side protocol driver: the
    length-header codec ([add_length_header], [consume_length_header]),
    the status check ([accept_status]) and the session loop ([main]),
    followed by the properties established about them. *)

From Stdlib Require Import ZArith List Bool Lia String Ascii.
From Stdlib Require Import Strings.Byte.
Import ListNotations.

Local Open Scope Z_scope.

(** ** Python values used by the driver *)

(** A Python [bytes] object. *)
Definition bytes := list byte.

(** The literal [b'...'] for an ASCII text. *)
Definition b (s : string) : bytes := list_byte_of_string s.

Definition byte_val (c : byte) : Z := Z.of_N (Byte.to_N c).

(** [len(x)] as a Python integer. *)
Definition len {A} (l : list A) : Z := Z.of_nat (List.length l).

(** The exception classes that can surface in [main]. *)
Inductive exn :=
| InterruptedError
| ValueError
| JSONDecodeError
| TypeError
| OverflowError
| UnboundLocalError
| ConnectionRefusedError.

(** [issubclass(e, cls)] on the classes above: [json.JSONDecodeError]
    derives from [ValueError]; the others are unrelated. *)
Definition issubclass (e cls : exn) : bool :=
  match e, cls with
  | InterruptedError, InterruptedError => true
  | ValueError, ValueError => true
  | JSONDecodeError, JSONDecodeError => true
  | JSONDecodeError, ValueError => true
  | TypeError, TypeError => true
  | OverflowError, OverflowError => true
  | UnboundLocalError, UnboundLocalError => true
  | ConnectionRefusedError, ConnectionRefusedError => true
  | _, _ => false
  end.

(** The outcome of evaluating a Python expression: a value or a raised
    exception. *)
Inductive result (A : Type) :=
| Ok (a : A)
| Raise (e : exn).
Arguments Ok {A} a.
Arguments Raise {A} e.

(** ** Builtins on [bytes] and [int] *)

Module Py.

(** [c in chars] for a byte and a bytes object. *)
Definition mem (c : byte) (chars : bytes) : bool :=
  existsb (Byte.eqb c) chars.

(** [bytes.lstrip(chars)], [bytes.rstrip(chars)], [bytes.strip(chars)]:
    drop the leading (trailing) bytes that occur in [chars]. *)
Fixpoint lstrip (chars s : bytes) : bytes :=
  match s with
  | [] => []
  | c :: s' => if mem c chars then lstrip chars s' else s
  end.

Definition rstrip (chars s : bytes) : bytes :=
  rev (lstrip chars (rev s)).

Definition strip (chars s : bytes) : bytes :=
  rstrip chars (lstrip chars s).

(** [bytes.ljust(width)]: pad with spaces on the right up to [width];
    a longer value is returned unchanged. *)
Definition ljust (width : nat) (s : bytes) : bytes :=
  s ++ repeat " "%byte (width - List.length s)%nat.

(** [bytes.startswith], [bytes.endswith]. *)
Fixpoint startswith (s prefix : bytes) : bool :=
  match prefix, s with
  | [], _ => true
  | p :: prefix', c :: s' => Byte.eqb c p && startswith s' prefix'
  | _ :: _, [] => false
  end.

Definition endswith (s suffix : bytes) : bool :=
  startswith (rev s) (rev suffix).

Definition bytes_eqb (x y : bytes) : bool :=
  if list_eq_dec Byte.byte_eq_dec x y then true else false.

(** The ASCII digit of a value below ten. *)
Definition digit_byte (d : Z) : byte :=
  match Byte.of_N (Z.to_N (48 + d)) with
  | Some c => c
  | None => "0"%byte
  end.

(** Decimal digits of a non-negative integer, most significant first.
    [fuel] bounds the number of digits. *)
Fixpoint digits_of (fuel : nat) (n : Z) (acc : bytes) : bytes :=
  let acc' := digit_byte (n mod 10) :: acc in
  match fuel with
  | O => acc'
  | S fuel' => if n / 10 =? 0 then acc' else digits_of fuel' (n / 10) acc'
  end.

(** [str(n).encode()] for an integer. *)
Definition str (n : Z) : bytes :=
  if n <? 0
  then "-"%byte :: digits_of (Z.to_nat (Z.log2 (- n))) (- n) []
  else digits_of (Z.to_nat (Z.log2 n)) n [].

(** [Py_ISSPACE]: space, and the controls 0x09 to 0x0d. *)
Definition isspace (c : byte) : bool :=
  (byte_val c =? 32) || ((9 <=? byte_val c) && (byte_val c <=? 13)).

Definition isdigit (c : byte) : bool :=
  (48 <=? byte_val c) && (byte_val c <=? 57).

Definition digit_value (c : byte) : Z := byte_val c - 48.

Fixpoint skip_space (s : bytes) : bytes :=
  match s with
  | c :: s' => if isspace c then skip_space s' else s
  | [] => []
  end.

(** The digit scan of [PyLong_FromString] in base 10: digits, with
    single underscores between them.  [prev_us] tells whether the
    byte before was an underscore; the scan stops at the first byte
    that is neither digit nor underscore and yields the value read,
    the number of digits, the last [prev_us] and the rest; a doubled
    underscore is an error. *)
Fixpoint scan_digits (prev_us : bool) (acc : Z) (ndigits : nat)
         (s : bytes) : option (Z * nat * bool * bytes) :=
  match s with
  | [] => Some (acc, ndigits, prev_us, [])
  | c :: s' =>
      if isdigit c
      then scan_digits false (10 * acc + digit_value c) (S ndigits) s'
      else if Byte.eqb c "_"%byte
           then if prev_us then None
                else scan_digits true acc ndigits s'
           else Some (acc, ndigits, prev_us, s)
  end.

(** [int(s)] for a bytes object, base 10: optional white space, an
    optional sign, digits with single underscores between them,
    optional white space; anything else raises [ValueError]. *)
Definition int (s : bytes) : result Z :=
  let s1 := skip_space s in
  let '(sign, s2) :=
    match s1 with
    | c :: t => if Byte.eqb c "+"%byte then (1, t)
                else if Byte.eqb c "-"%byte then (-1, t)
                else (1, s1)
    | [] => (1, s1)
    end in
  match s2 with
  | c :: _ =>
      if Byte.eqb c "_"%byte then Raise ValueError
      else
        match scan_digits false 0 0 s2 with
        | None => Raise ValueError
        | Some (v, ndigits, prev_us, rest) =>
            if prev_us then Raise ValueError
            else if Nat.eqb ndigits 0 then Raise ValueError
            else match skip_space rest with
                 | [] => Ok (sign * v)
                 | _ :: _ => Raise ValueError
                 end
        end
  | [] => Raise ValueError
  end.

End Py.

(** ** The frame codec *)

(** [b'<length ' + length + b'>'] for a payload of [n] bytes. *)
Definition header_text (n : Z) : bytes :=
  b "<length " ++ Py.str n ++ b ">".

Definition add_length_header (data : bytes) : bytes :=
  let length := Py.str (len data) in
  let header := Py.ljust 32 (b "<length " ++ length ++ b ">") in
  header ++ data.

(** ** JSON serialisation of a collector's results *)

(** The Python objects a collector may hand over.  Text is a sequence
    of code points below 256; dictionaries have text keys and keep
    their insertion order.  [PyBytes] and [PySet] stand for the values
    [json.dumps] has no encoding for. *)
#[warnings="-register-all"]
Inductive pyobj :=
| PyNone
| PyBool (v : bool)
| PyInt (v : Z)
| PyStr (v : string)
| PyList (items : list pyobj)
| PyDict (items : list (string * pyobj))
| PyBytes (v : bytes)
| PySet (items : list pyobj).

Module Json.

Definition hex_digit (d : Z) : byte :=
  if d <? 10 then Py.digit_byte d
  else match Byte.of_N (Z.to_N (87 + d)) with
       | Some c => c
       | None => "0"%byte
       end.

(** One code point under [ensure_ascii]: the short escapes, the
    printable ASCII range as it is, [\u00xx] for the rest. *)
Definition escape_char (c : ascii) : bytes :=
  let n := Z.of_N (N_of_ascii c) in
  if n =? 34 then [x5c; x22]
  else if n =? 92 then [x5c; x5c]
  else if n =? 10 then [x5c; "n"%byte]
  else if n =? 13 then [x5c; "r"%byte]
  else if n =? 9 then [x5c; "t"%byte]
  else if n =? 12 then [x5c; "f"%byte]
  else if n =? 8 then [x5c; "b"%byte]
  else if (32 <=? n) && (n <=? 126) then [byte_of_ascii c]
  else [x5c; "u"%byte; "0"%byte; "0"%byte; hex_digit (n / 16); hex_digit (n mod 16)].

Fixpoint escape (s : string) : bytes :=
  match s with
  | EmptyString => []
  | String c s' => escape_char c ++ escape s'
  end.

Definition encode_basestring_ascii (s : string) : bytes :=
  x22 :: escape s ++ [x22].

(** The first exception among the parts, or all their values. *)
Fixpoint all_ok (parts : list (result bytes)) : result (list bytes) :=
  match parts with
  | [] => Ok []
  | Raise e :: _ => Raise e
  | Ok x :: parts' =>
      match all_ok parts' with
      | Raise e => Raise e
      | Ok xs => Ok (x :: xs)
      end
  end.

(** [sep.join(parts)]. *)
Fixpoint join (sep : bytes) (parts : list bytes) : bytes :=
  match parts with
  | [] => []
  | [x] => x
  | x :: parts' => x ++ sep ++ join sep parts'
  end.

(** [json.dumps(obj).encode()] with the default options: separators
    [', '] and [': '], ASCII-only output; [TypeError] for an object
    without a JSON encoding. *)
Fixpoint dumps (obj : pyobj) : result bytes :=
  match obj with
  | PyNone => Ok (b "null")
  | PyBool true => Ok (b "true")
  | PyBool false => Ok (b "false")
  | PyInt v => Ok (Py.str v)
  | PyStr v => Ok (encode_basestring_ascii v)
  | PyList items =>
      match all_ok (map dumps items) with
      | Raise e => Raise e
      | Ok parts => Ok (b "[" ++ join (b ", ") parts ++ b "]")
      end
  | PyDict items =>
      let member (kv : string * pyobj) :=
        match dumps (snd kv) with
        | Raise e => Raise e
        | Ok bv => Ok (encode_basestring_ascii (fst kv) ++ b ": " ++ bv)
        end in
      match all_ok (map member items) with
      | Raise e => Raise e
      | Ok parts => Ok (b "{" ++ join (b ", ") parts ++ b "}")
      end
  | PyBytes _ => Raise TypeError
  | PySet _ => Raise TypeError
  end.

End Json.

(** Induction on a Python object that reaches the items of lists and
    dictionaries. *)
Section PyobjInduction.

Variable P : pyobj -> Prop.
Hypothesis HNone : P PyNone.
Hypothesis HBool : forall v, P (PyBool v).
Hypothesis HInt : forall v, P (PyInt v).
Hypothesis HStr : forall v, P (PyStr v).
Hypothesis HList : forall items, Forall P items -> P (PyList items).
Hypothesis HDict :
  forall items, Forall (fun kv => P (snd kv)) items -> P (PyDict items).
Hypothesis HBytes : forall v, P (PyBytes v).
Hypothesis HSet : forall items, P (PySet items).

(** Induction on a Python object, its items included. *)
Fixpoint pyobj_nested_ind (obj : pyobj) : P obj :=
  match obj with
  | PyNone => HNone
  | PyBool v => HBool v
  | PyInt v => HInt v
  | PyStr v => HStr v
  | PyList items =>
      HList items
        ((fix all (l : list pyobj) : Forall P l :=
            match l with
            | [] => Forall_nil P
            | x :: l' => Forall_cons x (pyobj_nested_ind x) (all l')
            end) items)
  | PyDict items =>
      HDict items
        ((fix all (l : list (string * pyobj))
            : Forall (fun kv => P (snd kv)) l :=
            match l with
            | [] => Forall_nil _
            | kv :: l' =>
                Forall_cons (P := fun kv => P (snd kv)) kv
                            (pyobj_nested_ind (snd kv)) (all l')
            end) items)
  | PyBytes v => HBytes v
  | PySet items => HSet items
  end.

End PyobjInduction.

(** ** Collectors *)

(** Modelled from the spec: the collector capability.  The module
    [scraping.theguardian] that defines the registered [Client] class is
    not among the sources; a collector is taken as the spec describes
    it, a name, the status code its [request()] returns and the article
    records its [results()] returns. *)
Record Client := {
  name : string;
  request : Z;
  results : pyobj
}.

(** ** The world the driver runs in *)

Inductive stream := Stdout | Stderr.

(** The f-strings of [main.py], with the values they interpolate. *)
Inductive message :=
| UnexpectedStart (status : bytes)
| UnexpectedFinish (status : bytes)
| Problematic (status : bytes)
| BadJson (client_name : string) (send_data : bytes)
| FailedTooMany (send_data : bytes).

(** A positional argument of [print]. *)
Inductive printable :=
| Text (m : message)
| Obj (o : pyobj)
| SysStderr.

(** What the process does to the outside, in program order. *)
Inductive event :=
| EvConnect
| EvRequest (client : Client)
| EvPrint (file : stream) (args : list printable)
| EvSendall (data : bytes)
| EvHeader (raw_header : bytes)
| EvStatus (bufsize : Z) (status : bytes)
| EvClose.

(** [server_up]: whether [connect] finds the server listening.
    [incoming]: what the successive [recv] calls find, one chunk per
    arrival of data; no chunk left means the peer has closed.
    [trace]: the events so far. *)
Record world := {
  server_up : bool;
  incoming : list bytes;
  trace : list event
}.

Definition M (A : Type) : Type := world -> result A * world.

Definition ret {A} (a : A) : M A := fun w => (Ok a, w).

Definition raise {A} (e : exn) : M A := fun w => (Raise e, w).

Definition bind {A B} (m : M A) (k : A -> M B) : M B :=
  fun w =>
    match m w with
    | (Ok a, w') => k a w'
    | (Raise e, w') => (Raise e, w')
    end.

Declare Scope py_scope.
Delimit Scope py_scope with py.
Notation "x <- m ;; k" := (bind m (fun x => k))
  (at level 100, m at next level, right associativity) : py_scope.
Notation "m ;; k" := (bind m (fun _ => k))
  (at level 100, right associativity) : py_scope.
Local Open Scope py_scope.

Definition lift {A} (r : result A) : M A := fun w => (r, w).

Definition emit (e : event) : M unit :=
  fun w => (Ok tt, {| server_up := server_up w;
                      incoming := incoming w;
                      trace := trace w ++ [e] |}).

Definition print (file : stream) (args : list printable) : M unit :=
  emit (EvPrint file args).

(** *** The socket *)

Definition PY_SSIZE_T_MAX : Z := 9223372036854775807.

Fixpoint take (n : Z) (s : bytes) : bytes :=
  match s with
  | [] => []
  | c :: s' => if n <=? 0 then [] else c :: take (n - 1) s'
  end.

Fixpoint drop (n : Z) (s : bytes) : bytes :=
  match s with
  | [] => []
  | c :: s' => if n <=? 0 then s else drop (n - 1) s'
  end.

(** What [recv(bufsize)] returns and what stays queued: at most
    [bufsize] bytes of the next chunk; [b''] once the peer has closed. *)
Definition recv_bytes (bufsize : Z) (inc : list bytes) : bytes * list bytes :=
  match inc with
  | [] => ([], [])
  | chunk :: rest =>
      (take bufsize chunk,
       match drop bufsize chunk with
       | [] => rest
       | more => more :: rest
       end)
  end.

(** [sock.recv(bufsize)]: a negative size is a [ValueError], one beyond
    [ssize_t] an [OverflowError].  Memory exhaustion is not modelled. *)
Definition recv (bufsize : Z) : M bytes :=
  fun w =>
    if bufsize <? 0 then (Raise ValueError, w)
    else if PY_SSIZE_T_MAX <? bufsize then (Raise OverflowError, w)
    else let '(data, inc) := recv_bytes bufsize (incoming w) in
         (Ok data, {| server_up := server_up w;
                      incoming := inc;
                      trace := trace w |}).

Definition sendall (data : bytes) : M unit := emit (EvSendall data).

Definition connect : M unit :=
  fun w => if server_up w then emit EvConnect w
           else (Raise ConnectionRefusedError, w).

(** ** [main.py] *)

Definition MSG_OK_DONE : bytes := b "MSG-OK-DONE".
Definition NEXT : bytes := b "NEXT".
Definition DONE : bytes := b "DONE".

Definition accept_status (status : bytes) : M bool :=
  if Py.bytes_eqb status MSG_OK_DONE then ret true
  else
    (match status with
     | [] => raise InterruptedError
     | _ :: _ =>
         if negb (Py.startswith status (b "MSG-"))
         then print Stdout [Text (UnexpectedStart status); SysStderr]
         else if negb (Py.endswith status (b "-DONE"))
              then print Stderr [Text (UnexpectedFinish status)]
              else print Stderr [Text (Problematic status)]
     end;;
     ret false).

Definition consume_length_header : M Z :=
  raw_header <- recv 32;;
  emit (EvHeader raw_header);;
  let content_length := Py.strip (b "<length> ") raw_header in
  lift (Py.int content_length).

(** The [while max_attempts > 0] loop; the value returned is
    [max_attempts] when the loop is left, by [break] or by its
    condition. *)
Fixpoint send_loop (max_attempts : nat) (send_data : bytes) : M nat :=
  match max_attempts with
  | O => ret O
  | S attempts_left =>
      sendall (add_length_header send_data);;
      status_length <- consume_length_header;;
      status <- recv status_length;;
      emit (EvStatus status_length status);;
      ok <- accept_status status;;
      if ok then ret max_attempts
      else send_loop attempts_left send_data
  end.

(** The body of the [for] loop for collector number [i] of [total].
    The local variable [send_data] outlives an iteration; it is unbound
    ([None]) until the first serialisation succeeds. *)
Definition for_body (total i : Z) (client : Client) (send_data : option bytes)
  : M (option bytes) :=
  emit (EvRequest client);;
  if (200 <=? request client) && (request client <? 300) then
    let articles := results client in
    print Stderr [Obj articles];;
    match Json.dumps articles with
    | Raise e =>
        if issubclass e JSONDecodeError then
          match send_data with
          | None => raise UnboundLocalError
          | Some old =>
              print Stderr [Text (BadJson (name client) old)];;
              ret send_data
          end
        else raise e
    | Ok data =>
        max_attempts <- send_loop 3 data;;
        (if Nat.eqb max_attempts 0
         then print Stdout [Text (FailedTooMany data); SysStderr]
         else ret tt);;
        (if i <? total - 1 then sendall NEXT else ret tt);;
        ret (Some data)
    end
  else ret send_data.

Fixpoint for_loop (total i : Z) (clients : list Client) (send_data : option bytes)
  : M unit :=
  match clients with
  | [] => ret tt
  | client :: clients' =>
      send_data' <- for_body total i client send_data;;
      for_loop total (i + 1) clients' send_data'
  end.

(** The [with] block: the socket is closed however the body ends. *)
Definition with_socket {A} (body : M A) : M A :=
  fun w =>
    let '(r, w') := body w in
    (r, snd (emit EvClose w')).

Definition main (API_CLIENTS : list Client) : M unit :=
  with_socket
    (connect;;
     for_loop (len API_CLIENTS) 0 API_CLIENTS None;;
     sendall DONE).

(** The payloads handed to [sendall], in order. *)
Fixpoint sends (tr : list event) : list bytes :=
  match tr with
  | [] => []
  | EvSendall data :: tr' => data :: sends tr'
  | _ :: tr' => sends tr'
  end.

(** A world with the server up, [inc] to deliver and nothing done yet. *)
Definition world0 (inc : list bytes) : world :=
  {| server_up := true; incoming := inc; trace := [] |}.

(** [w] with other data to deliver and another trace. *)
Definition with_trace (w : world) (inc : list bytes) (tr : list event) : world :=
  {| server_up := server_up w; incoming := inc; trace := tr |}.

(** * Vocabulary of the statements *)

(** ** Integer literals *)

(** The number a run of decimal digits denotes, continuing from [a]. *)
Definition decimal (ds : bytes) (a : Z) : Z :=
  fold_left (fun a c => 10 * a + Py.digit_value c) ds a.

(** What may follow a digit of a literal: nothing, a digit, or one
    underscore and a digit. *)
Inductive digit_tail : bytes -> Prop :=
| tail_end : digit_tail []
| tail_digit d s :
    Py.isdigit d = true -> digit_tail s -> digit_tail (d :: s)
| tail_underscore d s :
    Py.isdigit d = true -> digit_tail s -> digit_tail ("_"%byte :: d :: s).

Inductive sign_of : bytes -> Z -> Prop :=
| sign_none : sign_of [] 1
| sign_plus : sign_of ["+"%byte] 1
| sign_minus : sign_of ["-"%byte] (-1).

Definition spaces (ws : bytes) : Prop :=
  Forall (fun c => Py.isspace c = true) ws.

(** [int_literal s k]: [s] is a base-10 integer literal of Python that
    denotes [k]: white space, an optional sign, digits with single
    underscores between them, white space. *)
Inductive int_literal : bytes -> Z -> Prop :=
| literal ws1 sg sv d s ws2 :
    spaces ws1 -> sign_of sg sv ->
    Py.isdigit d = true -> digit_tail s ->
    spaces ws2 ->
    int_literal (ws1 ++ sg ++ (d :: s) ++ ws2)
                (sv * decimal (filter Py.isdigit (d :: s)) 0).

(** The set that [consume_length_header] trims from both ends. *)
Definition trim_chars : bytes := b "<length> ".

Definition trimmed (s : bytes) : Prop :=
  Forall (fun c => Py.mem c trim_chars = true) s.

Definition all_digits (ds : bytes) : Prop :=
  Forall (fun c => Py.isdigit c = true) ds.

(** The digit scan stops in front of [rest]. *)
Definition stops (rest : bytes) : Prop :=
  match rest with
  | [] => True
  | c :: _ => Py.isdigit c = false /\ Byte.eqb c "_"%byte = false
  end.

(** Every byte of [s] occurs in [chars]. *)
Definition all_in (chars s : bytes) : Prop :=
  Forall (fun c => Py.mem c chars = true) s.

(** ** Status classes *)

Inductive classification :=
| accepted
| malformed_start
| malformed_end
| malformed_other
| connection_closed.

(** The classification rules, in the order the specification of the
    status interpreter lists them. *)
Definition classify_spec (status : bytes) : classification :=
  match status with
  | [] => connection_closed
  | _ :: _ =>
      if Py.bytes_eqb status MSG_OK_DONE then accepted
      else if negb (Py.startswith status (b "MSG-")) then malformed_start
      else if negb (Py.endswith status (b "-DONE")) then malformed_end
      else malformed_other
  end.

(** The class an observer reads off a call of [accept_status]: from
    what it returns or raises and from what it prints. *)
Definition observed (r : result bool) (printed : list event) : option classification :=
  match r, printed with
  | Ok true, [] => Some accepted
  | Raise InterruptedError, [] => Some connection_closed
  | Ok false, [EvPrint _ (Text (UnexpectedStart _) :: _)] => Some malformed_start
  | Ok false, [EvPrint _ (Text (UnexpectedFinish _) :: _)] => Some malformed_end
  | Ok false, [EvPrint _ (Text (Problematic _) :: _)] => Some malformed_other
  | _, _ => None
  end.

(** What [accept_status] returns and what it prints, whatever the
    world. *)
Definition verdict (status : bytes) : result bool :=
  fst (accept_status status (world0 [])).

Definition complaint (status : bytes) : list event :=
  trace (snd (accept_status status (world0 []))).

(** ** Traces of the retry loop and of one collector *)

(** [loop_trace frame m r tr]: entered with [max_attempts = m], the
    [while] loop can end with [r] after the events [tr]. *)
Inductive loop_trace (frame : bytes) : nat -> result nat -> list event -> Prop :=
| loop_exhausted :
    loop_trace frame 0 (Ok 0%nat) []
| loop_accepted m raw n :
    Py.int (Py.strip trim_chars raw) = Ok n ->
    loop_trace frame (S m) (Ok (S m))
               [EvSendall frame; EvHeader raw; EvStatus n MSG_OK_DONE]
| loop_rejected m raw n status r tr :
    Py.int (Py.strip trim_chars raw) = Ok n ->
    status <> [] -> status <> MSG_OK_DONE ->
    loop_trace frame m r tr ->
    loop_trace frame (S m) r
               (EvSendall frame :: EvHeader raw :: EvStatus n status
                  :: complaint status ++ tr)
| loop_closed m raw n :
    Py.int (Py.strip trim_chars raw) = Ok n ->
    loop_trace frame (S m) (Raise InterruptedError)
               [EvSendall frame; EvHeader raw; EvStatus n []]
| loop_bad_header m raw :
    Py.int (Py.strip trim_chars raw) = Raise ValueError ->
    loop_trace frame (S m) (Raise ValueError) [EvSendall frame; EvHeader raw]
| loop_bad_length m raw n e :
    Py.int (Py.strip trim_chars raw) = Ok n ->
    (n < 0 /\ e = ValueError \/ PY_SSIZE_T_MAX < n /\ e = OverflowError) ->
    loop_trace frame (S m) (Raise e) [EvSendall frame; EvHeader raw].

Definition is_success (status : Z) : bool :=
  (200 <=? status) && (status <? 300).

(** [body_trace total i c sd r tr]: one iteration of the [for] loop, on
    collector [c], can end with [r] after the events [tr]. *)
Inductive body_trace (total i : Z) (c : Client) (sd : option bytes)
  : result (option bytes) -> list event -> Prop :=
| body_skipped :
    is_success (request c) = false ->
    body_trace total i c sd (Ok sd) [EvRequest c]
| body_unserialisable :
    is_success (request c) = true ->
    Json.dumps (results c) = Raise TypeError ->
    body_trace total i c sd (Raise TypeError)
               [EvRequest c; EvPrint Stderr [Obj (results c)]]
| body_sent data m tr :
    is_success (request c) = true ->
    Json.dumps (results c) = Ok data ->
    loop_trace (add_length_header data) 3 (Ok m) tr ->
    body_trace total i c sd (Ok (Some data))
               (EvRequest c :: EvPrint Stderr [Obj (results c)] :: tr
                  ++ (if Nat.eqb m 0
                      then [EvPrint Stdout [Text (FailedTooMany data); SysStderr]]
                      else [])
                  ++ (if i <? total - 1 then [EvSendall NEXT] else []))
| body_fatal data e tr :
    is_success (request c) = true ->
    Json.dumps (results c) = Ok data ->
    loop_trace (add_length_header data) 3 (Raise e) tr ->
    body_trace total i c sd (Raise e)
               (EvRequest c :: EvPrint Stderr [Obj (results c)] :: tr).

(** ** Runs that end early *)

(** An event after which the run goes on. *)
Definition calm (ev : event) : Prop :=
  match ev with
  | EvStatus _ status => status <> []
  | EvHeader raw => exists n, Py.int (Py.strip trim_chars raw) = Ok n
  | EvSendall data => data <> DONE
  | EvClose => False
  | _ => True
  end.

(** [ends r tr]: the events [tr] are calm, except that a run that
    raises may have stopped on an empty status or on a header that does
    not decode. *)
Definition ends {A} (r : result A) (tr : list event) : Prop :=
  match r with
  | Ok _ => Forall calm tr
  | Raise e =>
      exists tr0 tl,
        tr = tr0 ++ tl /\ Forall calm tr0
        /\ (tl = []
            \/ (exists n, tl = [EvStatus n []] /\ e = InterruptedError)
            \/ (exists raw, tl = [EvHeader raw]
                            /\ Py.int (Py.strip trim_chars raw) = Raise ValueError
                            /\ e = ValueError))
  end.

(** ** A server that keeps rejecting *)


(** ** What a completed session has sent *)

(** The sends for collector [i] of [total], with [k] attempts. *)
Definition block (total i : Z) (c : Client) (k : nat) : list bytes :=
  if is_success (request c) then
    match Json.dumps (results c) with
    | Ok data =>
        repeat (add_length_header data) k
          ++ (if i <? total - 1 then [NEXT] else [])
    | Raise _ => []
    end
  else [].

Fixpoint blocks (total i : Z) (cs : list Client) (ks : list nat) : list bytes :=
  match cs, ks with
  | c :: cs', k :: ks' => block total i c k ++ blocks total (i + 1) cs' ks'
  | _, _ => []
  end.

Definition attempts_in_range (ks : list nat) : Prop :=
  Forall (fun k => (1 <= k <= 3)%nat) ks.

(** ** What a run may do *)

(** The collectors whose [request()] was called, in order. *)
Fixpoint requests (tr : list event) : list Client :=
  match tr with
  | [] => []
  | EvRequest c :: tr' => c :: requests tr'
  | _ :: tr' => requests tr'
  end.

(** The three complaints of [accept_status], each with its stream. *)
Definition is_complaint (file : stream) (args : list printable) : Prop :=
  exists status,
    (file = Stdout /\ args = [Text (UnexpectedStart status); SysStderr])
    \/ (file = Stderr /\ args = [Text (UnexpectedFinish status)])
    \/ (file = Stderr /\ args = [Text (Problematic status)]).

(** The events a run over the collectors [cs] can produce. *)
Definition permitted (cs : list Client) (ev : event) : Prop :=
  match ev with
  | EvConnect | EvClose | EvHeader _ | EvStatus _ _ => True
  | EvRequest c => In c cs
  | EvSendall d =>
      d = NEXT \/ d = DONE
      \/ exists c data,
          In c cs /\ is_success (request c) = true
          /\ Json.dumps (results c) = Ok data /\ d = add_length_header data
  | EvPrint file args =>
      (exists c, In c cs /\ file = Stderr /\ args = [Obj (results c)])
      \/ is_complaint file args
      \/ (exists c data,
             In c cs /\ Json.dumps (results c) = Ok data
             /\ file = Stdout /\ args = [Text (FailedTooMany data); SysStderr])
  end.

(** The exceptions that can end a run. *)
Definition fatal (e : exn) : Prop :=
  e = ConnectionRefusedError \/ e = TypeError \/ e = ValueError
  \/ e = OverflowError \/ e = InterruptedError.


(** How many times [NEXT] occurs among the payloads sent. *)
Definition count_NEXT (sent : list bytes) : nat :=
  count_occ (list_eq_dec Byte.byte_eq_dec) sent NEXT.

(** ** Concrete collectors and servers *)

Definition guardian : Client :=
  {| name := "theguardian"; request := 200;
     results := PyList [PyDict [("title"%string, PyStr "Good news")]] |}.

Definition weather : Client :=
  {| name := "weather"; request := 200; results := PyList [PyInt 1; PyInt 22] |}.

Definition offline : Client :=
  {| name := "offline"; request := 404; results := PyNone |}.

Definition broken : Client :=
  {| name := "broken"; request := 200;
     results := PyList [PyBytes (b "raw")] |}.

(** The server's acknowledgment of a status, framed as the client
    frames its payloads, in one chunk. *)
Definition ack (status : bytes) : bytes := add_length_header status.

Definition frame_of (c : Client) : bytes :=
  match Json.dumps (results c) with
  | Ok data => add_length_header data
  | Raise _ => []
  end.

(** Three acknowledgments of well-formed rejections, then an accepting
    one. *)
Definition busy_server : world :=
  world0 [ack (b "MSG-BUSY-DONE"); ack (b "ERR"); ack (b "MSG-OK"); ack MSG_OK_DONE].

(** A server that accepts every payload at once. *)
Definition obliging_server : world :=
  world0 [ack MSG_OK_DONE; ack MSG_OK_DONE; ack MSG_OK_DONE].

(** A server that rejects the first payload once. *)
Definition hesitant_server : world :=
  world0 [ack (b "MSG-BUSY-DONE"); ack MSG_OK_DONE; ack MSG_OK_DONE].

(** A server whose second acknowledgment carries an empty status. *)
Definition silent_server : world :=
  world0 [ack MSG_OK_DONE; ack []].

(** A header that does not decode: two numbers between the brackets. *)
Definition garbled_header : bytes := Py.ljust 32 (b "<length 1 1>").

(** A server whose second, respectively first, acknowledgment has the
    garbled header. *)
Definition garbling_server : world :=
  world0 [ack MSG_OK_DONE; garbled_header ++ MSG_OK_DONE].

Definition garbling_at_once_server : world :=
  world0 [garbled_header ++ MSG_OK_DONE; ack MSG_OK_DONE; ack MSG_OK_DONE].

(** The header [-5], and a header with the trimmed bytes in disorder
    around the digits. *)
Definition negative_header : bytes := Py.ljust 32 (b "-5").

Definition scrambled_header : bytes := b "> htg 42 nel<<                  ".



(** A server that announces a negative size, one that announces an
    empty status, and one that has closed the connection. *)
Definition negative_server : world := world0 [negative_header].

Definition empty_status_server : world := world0 [ack []].


(** Membership in a list that is written out. *)
Ltac find_in :=
  repeat match goal with
         | |- _ \/ _ => (left; reflexivity) || right
         end.

(** * Properties *)

(** ** The model on concrete inputs *)

Example str_examples :
  Py.str 0 = b "0" /\ Py.str 7 = b "7" /\ Py.str 1234567890 = b "1234567890"
  /\ Py.str (-42) = b "-42" /\ Py.str 1000 = b "1000" /\ Py.str 1024 = b "1024".
Proof. repeat split; reflexivity. Qed.

Example int_examples :
  Py.int (b "7") = Ok 7 /\ Py.int (b "-5") = Ok (-5) /\ Py.int (b "1_000") = Ok 1000
  /\ Py.int (b "") = Raise ValueError /\ Py.int (b "1__0") = Raise ValueError
  /\ Py.int (b "_1") = Raise ValueError /\ Py.int (b "1_") = Raise ValueError
  /\ Py.int (b "+") = Raise ValueError /\ Py.int (b "+ 5") = Raise ValueError
  /\ Py.int (b "007") = Ok 7 /\ Py.int (b "12 3") = Raise ValueError
  /\ Py.int (b "x") = Raise ValueError.
Proof. repeat split; reflexivity. Qed.

Example frame_example :
  add_length_header (b "[1, 22]") = b "<length 7>                      [1, 22]".
Proof. reflexivity. Qed.

Example dumps_examples :
  Json.dumps (PyList [PyInt 1; PyInt 22]) = Ok (b "[1, 22]")
  /\ Json.dumps (PyDict [("a"%string, PyNone); ("b"%string, PyBool true)])
     = Ok (b "{" ++ [x22] ++ b "a" ++ [x22] ++ b ": null, "
             ++ [x22] ++ b "b" ++ [x22] ++ b ": true}")
  /\ Json.dumps (PyList [PyInt 1; PySet []]) = Raise TypeError
  /\ Json.dumps (PyList []) = Ok (b "[]").
Proof. repeat split; reflexivity. Qed.

(** ** Bytes and digits *)

Section ByteFacts.

Lemma digit_not_trimmed c : Py.isdigit c = true -> Py.mem c trim_chars = false.
Proof. destruct c; try discriminate; reflexivity. Qed.

Lemma digit_not_space c : Py.isdigit c = true -> Py.isspace c = false.
Proof. destruct c; try discriminate; reflexivity. Qed.

Lemma digit_not_underscore c : Py.isdigit c = true -> Byte.eqb c "_"%byte = false.
Proof. destruct c; try discriminate; reflexivity. Qed.

Lemma digit_not_sign c :
  Py.isdigit c = true -> Byte.eqb c "+"%byte = false /\ Byte.eqb c "-"%byte = false.
Proof. destruct c; try discriminate; split; reflexivity. Qed.

Lemma space_not_digit c : Py.isspace c = true -> Py.isdigit c = false.
Proof. destruct c; try discriminate; reflexivity. Qed.

Lemma space_not_underscore c : Py.isspace c = true -> Byte.eqb c "_"%byte = false.
Proof. destruct c; try discriminate; reflexivity. Qed.

Lemma eqb_eq c d : Byte.eqb c d = true <-> c = d.
Proof. split; [apply Byte.byte_dec_bl | apply Byte.byte_dec_lb]. Qed.

Lemma digit_byte_spec d :
  0 <= d < 10 ->
  Py.isdigit (Py.digit_byte d) = true /\ Py.digit_value (Py.digit_byte d) = d.
Proof.
  intros H.
  assert (d = 0 \/ d = 1 \/ d = 2 \/ d = 3 \/ d = 4 \/ d = 5 \/ d = 6
          \/ d = 7 \/ d = 8 \/ d = 9) as Hd by lia.
  repeat (destruct Hd as [-> | Hd]; [split; reflexivity |]).
  subst d; split; reflexivity.
Qed.

End ByteFacts.

(** ** [str] and its digits *)

Section Digits.

Lemma digits_of_app fuel : forall n acc,
  Py.digits_of fuel n acc = Py.digits_of fuel n [] ++ acc.
Proof.
  induction fuel as [| fuel IH]; intros n acc; simpl.
  - reflexivity.
  - destruct (n / 10 =? 0); [reflexivity |].
    rewrite (IH (n / 10) (_ :: acc)), (IH (n / 10) [_]).
    rewrite <- app_assoc. reflexivity.
Qed.

Lemma digits_of_all_digits fuel : forall n,
  0 <= n -> all_digits (Py.digits_of fuel n []).
Proof.
  induction fuel as [| fuel IH]; intros n Hn; simpl.
  - constructor; [| constructor].
    apply digit_byte_spec. apply Z.mod_pos_bound. lia.
  - assert (Hd : Py.isdigit (Py.digit_byte (n mod 10)) = true).
    { apply digit_byte_spec. apply Z.mod_pos_bound. lia. }
    destruct (n / 10 =? 0).
    + constructor; [exact Hd | constructor].
    + rewrite digits_of_app. apply Forall_app. split.
      * apply IH. apply Z.div_pos; lia.
      * constructor; [exact Hd | constructor].
Qed.

Lemma digits_of_nonempty fuel n acc : Py.digits_of fuel n acc <> [].
Proof.
  revert n acc. induction fuel as [| fuel IH]; intros n acc; simpl.
  - discriminate.
  - destruct (n / 10 =? 0); [discriminate | apply IH].
Qed.

Lemma decimal_app ds1 ds2 a :
  decimal (ds1 ++ ds2) a = decimal ds2 (decimal ds1 a).
Proof. unfold decimal. apply fold_left_app. Qed.

Lemma digits_of_decimal fuel : forall n,
  0 <= n < 2 ^ (Z.of_nat fuel + 1) ->
  decimal (Py.digits_of fuel n []) 0 = n.
Proof.
  induction fuel as [| fuel IH]; intros n Hn.
  - cbn [Py.digits_of]. unfold decimal; cbn [fold_left].
    destruct (digit_byte_spec (n mod 10)) as [_ ->].
    + apply Z.mod_pos_bound; lia.
    + change (2 ^ (Z.of_nat 0 + 1)) with 2 in Hn. rewrite Z.mod_small; lia.
  - cbn [Py.digits_of].
    assert (Hv : Py.digit_value (Py.digit_byte (n mod 10)) = n mod 10).
    { apply digit_byte_spec. apply Z.mod_pos_bound. lia. }
    pose proof (Z.div_mod n 10 ltac:(lia)) as Hdm.
    destruct (n / 10 =? 0) eqn:Hq.
    + unfold decimal; cbn [fold_left]. rewrite Hv.
      apply Z.eqb_eq in Hq. lia.
    + rewrite digits_of_app, decimal_app, IH.
      * unfold decimal; cbn [fold_left]. rewrite Hv. lia.
      * split; [apply Z.div_pos; lia |].
        replace (Z.of_nat (S fuel) + 1) with (Z.succ (Z.of_nat fuel + 1)) in Hn by lia.
        rewrite Z.pow_succ_r in Hn by lia.
        apply Z.div_lt_upper_bound; lia.
Qed.

Lemma log2_fuel n : 0 <= n -> 0 <= n < 2 ^ (Z.of_nat (Z.to_nat (Z.log2 n)) + 1).
Proof.
  intros Hn. rewrite Z2Nat.id by apply Z.log2_nonneg.
  destruct (Z.eq_dec n 0) as [-> | Hz].
  - simpl. lia.
  - pose proof (Z.log2_spec n). unfold Z.succ in *. lia.
Qed.

(** [str] of a non-negative integer: a non-empty run of digits that
    denotes it. *)
Lemma str_nonneg n :
  0 <= n ->
  exists d ds, Py.str n = d :: ds /\ all_digits (d :: ds)
               /\ decimal (d :: ds) 0 = n.
Proof.
  intros Hn. unfold Py.str.
  destruct (n <? 0) eqn:Hlt; [apply Z.ltb_lt in Hlt; lia |].
  pose proof (digits_of_all_digits (Z.to_nat (Z.log2 n)) n Hn) as Hall.
  pose proof (digits_of_decimal (Z.to_nat (Z.log2 n)) n (log2_fuel n Hn)) as Hval.
  pose proof (digits_of_nonempty (Z.to_nat (Z.log2 n)) n []) as Hne.
  destruct (Py.digits_of (Z.to_nat (Z.log2 n)) n []) as [| d ds]; [congruence |].
  exists d, ds. auto.
Qed.

Lemma str_neg n :
  n < 0 ->
  exists d ds, Py.str n = "-"%byte :: d :: ds /\ all_digits (d :: ds)
               /\ decimal (d :: ds) 0 = - n.
Proof.
  intros Hn.
  destruct (str_nonneg (- n)) as (d & ds & Hs & Hall & Hval); [lia |].
  exists d, ds. unfold Py.str in *.
  destruct (n <? 0) eqn:Hlt; [| apply Z.ltb_ge in Hlt; lia].
  destruct (- n <? 0) eqn:Hlt'; [apply Z.ltb_lt in Hlt'; lia |].
  rewrite Hs. auto.
Qed.

Lemma all_digits_tail ds : all_digits ds -> digit_tail ds.
Proof. induction 1; constructor; auto. Qed.

Lemma all_digits_filter ds : all_digits ds -> filter Py.isdigit ds = ds.
Proof.
  induction 1 as [| c ds Hc _ IH]; simpl; [reflexivity |].
  rewrite Hc, IH. reflexivity.
Qed.

Lemma literal_intro ws1 sg sv d s ws2 text k :
  spaces ws1 -> sign_of sg sv -> Py.isdigit d = true -> digit_tail s ->
  spaces ws2 ->
  text = ws1 ++ sg ++ (d :: s) ++ ws2 ->
  k = sv * decimal (filter Py.isdigit (d :: s)) 0 ->
  int_literal text k.
Proof. intros; subst; constructor; assumption. Qed.

(** The text [str] produces is a literal for the number. *)
Lemma str_literal n : int_literal (Py.str n) n.
Proof.
  destruct (Z_lt_le_dec n 0) as [Hn | Hn].
  - destruct (str_neg n Hn) as (d & ds & Hs & Hall & Hval).
    inversion Hall; subst.
    apply (literal_intro [] ["-"%byte] (-1) d ds []);
      auto using all_digits_tail; try constructor.
    + rewrite Hs. simpl. rewrite app_nil_r. reflexivity.
    + rewrite all_digits_filter, Hval by assumption. lia.
  - destruct (str_nonneg n Hn) as (d & ds & Hs & Hall & Hval).
    inversion Hall; subst.
    apply (literal_intro [] [] 1 d ds []);
      auto using all_digits_tail; try constructor.
    + rewrite Hs. simpl. rewrite app_nil_r. reflexivity.
    + rewrite all_digits_filter by assumption.
      destruct (decimal (d :: ds) 0); reflexivity.
Qed.

End Digits.

(** ** [int] accepts exactly the literals *)

Section IntLiteral.

Lemma skip_space_app ws s : spaces ws -> Py.skip_space (ws ++ s) = Py.skip_space s.
Proof.
  induction 1 as [| c ws Hc _ IH]; simpl; [reflexivity |].
  rewrite Hc. exact IH.
Qed.

Lemma skip_space_spaces ws : spaces ws -> Py.skip_space ws = [].
Proof.
  intros H. rewrite <- (app_nil_r ws), skip_space_app by assumption.
  reflexivity.
Qed.

Lemma skip_space_nil s : Py.skip_space s = [] -> spaces s.
Proof.
  induction s as [| c s IH]; simpl.
  - constructor.
  - destruct (Py.isspace c) eqn:Hc; intros H.
    + constructor; [assumption | apply IH; assumption].
    + discriminate.
Qed.

Lemma skip_space_split s :
  exists ws, spaces ws /\ s = ws ++ Py.skip_space s.
Proof.
  induction s as [| c s (ws & Hws & IH)]; simpl.
  - exists []. split; [constructor | reflexivity].
  - destruct (Py.isspace c) eqn:Hc.
    + exists (c :: ws). split; [constructor; assumption |].
      simpl. congruence.
    + exists []. split; [constructor | reflexivity].
Qed.

Lemma spaces_stop ws : spaces ws -> stops ws.
Proof.
  destruct 1 as [| c ws Hc _]; simpl;
    auto using space_not_digit, space_not_underscore.
Qed.

Lemma scan_complete t : forall rest a k,
  digit_tail t -> stops rest ->
  Py.scan_digits false a k (t ++ rest)
  = Some (decimal (filter Py.isdigit t) a,
          (k + List.length (filter Py.isdigit t))%nat, false, rest).
Proof.
  intros rest a k Ht Hrest. revert a k.
  induction Ht as [| d s Hd _ IH | d s Hd _ IH]; intros a k.
  - simpl. rewrite Nat.add_0_r.
    destruct rest as [| c rest]; [reflexivity |].
    destruct Hrest as [H1 H2]. simpl. rewrite H1, H2. reflexivity.
  - simpl. rewrite Hd. simpl. rewrite IH.
    rewrite Nat.add_succ_r. reflexivity.
  - cbn [app Py.scan_digits filter].
    change (Py.isdigit "_"%byte) with false. cbv iota.
    change (Byte.eqb "_" "_") with true. cbv iota.
    rewrite Hd. simpl. rewrite IH.
    rewrite Nat.add_succ_r. reflexivity.
Qed.

Lemma scan_sound s : forall pu a k v n rest,
  Py.scan_digits pu a k s = Some (v, n, false, rest) ->
  if pu
  then exists d t, s = d :: t ++ rest /\ Py.isdigit d = true /\ digit_tail t
                   /\ v = decimal (filter Py.isdigit (d :: t)) a
                   /\ n = (k + List.length (filter Py.isdigit (d :: t)))%nat
  else exists t, s = t ++ rest /\ digit_tail t
                 /\ v = decimal (filter Py.isdigit t) a
                 /\ n = (k + List.length (filter Py.isdigit t))%nat.
Proof.
  induction s as [| c s IH]; intros pu a k v n rest H.
  - cbn [Py.scan_digits] in H. injection H as <- <- -> <-.
    exists []. repeat split; [constructor | simpl; lia].
  - cbn [Py.scan_digits] in H. destruct (Py.isdigit c) eqn:Hc.
    + apply IH in H. destruct H as (t & -> & Ht & -> & ->).
      destruct pu.
      * exists c, t. cbn [filter]. rewrite Hc.
        repeat split; auto; cbn [List.length]; lia.
      * exists (c :: t). cbn [filter]. rewrite Hc.
        repeat split; [constructor; assumption | cbn [List.length]; lia].
    + destruct (Byte.eqb c "_"%byte) eqn:Hu.
      * destruct pu; [discriminate |].
        apply IH in H. destruct H as (d & t & -> & Hd & Ht & -> & ->).
        apply eqb_eq in Hu. subst c.
        exists ("_"%byte :: d :: t). cbn [filter].
        change (Py.isdigit "_"%byte) with false. cbv iota. rewrite Hd.
        repeat split. constructor; assumption.
      * injection H as <- <- -> <-.
        exists []. repeat split; [constructor | simpl; lia].
Qed.

Lemma int_complete s k : int_literal s k -> Py.int s = Ok k.
Proof.
  intros [ws1 sg sv d t ws2 Hws1 Hsg Hd Ht Hws2].
  unfold Py.int. rewrite skip_space_app by assumption.
  pose proof (digit_not_space d Hd) as Hnsp.
  pose proof (digit_not_sign d Hd) as [Hnp Hnm].
  pose proof (digit_not_underscore d Hd) as Hnu.
  assert (Hscan : Py.scan_digits false 0 0 ((d :: t) ++ ws2)
                  = Some (decimal (filter Py.isdigit (d :: t)) 0,
                          (0 + List.length (filter Py.isdigit (d :: t)))%nat,
                          false, ws2)).
  { apply scan_complete; [constructor; assumption | apply spaces_stop; assumption]. }
  assert (Hlen : Nat.eqb (0 + List.length (filter Py.isdigit (d :: t))) 0 = false).
  { simpl. rewrite Hd. reflexivity. }
  destruct Hsg; cbn [app Py.skip_space].
  - rewrite Hnsp, Hnp, Hnm, Hnu.
    change (d :: t ++ ws2) with ((d :: t) ++ ws2).
    rewrite Hscan, Hlen, skip_space_spaces by assumption. reflexivity.
  - change (Py.isspace "+"%byte) with false. cbv iota.
    change (Byte.eqb "+" "+") with true. cbv iota.
    rewrite Hnu.
    change (d :: t ++ ws2) with ((d :: t) ++ ws2).
    rewrite Hscan, Hlen, skip_space_spaces by assumption. reflexivity.
  - change (Py.isspace "-"%byte) with false. cbv iota.
    change (Byte.eqb "-" "+") with false. cbv iota.
    change (Byte.eqb "-" "-") with true. cbv iota.
    rewrite Hnu.
    change (d :: t ++ ws2) with ((d :: t) ++ ws2).
    rewrite Hscan, Hlen, skip_space_spaces by assumption. reflexivity.
Qed.

(** What [int] does once the leading white space and the sign are
    gone. *)
Lemma int_body_sound sign s2 k :
  match s2 with
  | c :: _ =>
      if Byte.eqb c "_"%byte then Raise ValueError
      else
        match Py.scan_digits false 0 0 s2 with
        | None => Raise ValueError
        | Some (v, ndigits, prev_us, rest) =>
            if prev_us then Raise ValueError
            else if Nat.eqb ndigits 0 then Raise ValueError
            else match Py.skip_space rest with
                 | [] => Ok (sign * v)
                 | _ :: _ => Raise ValueError
                 end
        end
  | [] => Raise ValueError
  end = Ok k ->
  exists d t ws2, s2 = (d :: t) ++ ws2 /\ Py.isdigit d = true /\ digit_tail t
                  /\ spaces ws2
                  /\ k = sign * decimal (filter Py.isdigit (d :: t)) 0.
Proof.
  destruct s2 as [| c s2']; [discriminate |].
  destruct (Byte.eqb c "_"%byte) eqn:Hu; [discriminate |].
  destruct (Py.scan_digits false 0 0 (c :: s2')) as [[[[v n] pu] rest] |] eqn:Hscan;
    [| discriminate].
  destruct pu; [discriminate |].
  destruct (Nat.eqb n 0) eqn:Hn; [discriminate |].
  destruct (Py.skip_space rest) eqn:Hrest; [| discriminate].
  intros H. injection H as <-.
  apply scan_sound in Hscan. destruct Hscan as (t & Hs & Ht & -> & ->).
  destruct Ht as [| d t Hd Ht | d t Hd Ht].
  - simpl in Hn. discriminate.
  - exists d, t, rest. repeat split; auto. apply skip_space_nil; assumption.
  - simpl in Hs. injection Hs as -> _. discriminate.
Qed.

Lemma int_sound s k : Py.int s = Ok k -> int_literal s k.
Proof.
  unfold Py.int. destruct (skip_space_split s) as (ws1 & Hws1 & Hs).
  destruct (Py.skip_space s) as [| c s1] eqn:Hskip.
  - discriminate.
  - destruct (Byte.eqb c "+"%byte) eqn:Hp.
    + intros H. apply int_body_sound in H.
      destruct H as (d & t & ws2 & -> & Hd & Ht & Hws2 & ->).
      apply eqb_eq in Hp. subst c.
      apply (literal_intro ws1 ["+"%byte] 1 d t ws2); auto; constructor.
    + destruct (Byte.eqb c "-"%byte) eqn:Hm.
      * intros H. apply int_body_sound in H.
        destruct H as (d & t & ws2 & -> & Hd & Ht & Hws2 & ->).
        apply eqb_eq in Hm. subst c.
        apply (literal_intro ws1 ["-"%byte] (-1) d t ws2); auto; constructor.
      * intros H. apply (int_body_sound 1 (c :: s1) k) in H.
        destruct H as (d & t & ws2 & Heq & Hd & Ht & Hws2 & ->).
        apply (literal_intro ws1 [] 1 d t ws2); auto; try constructor.
        rewrite Hs. simpl. simpl in Heq. rewrite Heq. reflexivity.
Qed.

Lemma int_literal_iff s k : Py.int s = Ok k <-> int_literal s k.
Proof. split; [apply int_sound | apply int_complete]. Qed.

(** [int] raises nothing but [ValueError]. *)
Lemma int_raises s e : Py.int s = Raise e -> e = ValueError.
Proof.
  unfold Py.int.
  destruct (match Py.skip_space s with
            | [] => (1, Py.skip_space s)
            | c :: t => if Byte.eqb c "+"%byte then (1, t)
                        else if Byte.eqb c "-"%byte then (-1, t)
                        else (1, Py.skip_space s)
            end) as [sign s2].
  destruct s2 as [| c s2']; [congruence |].
  destruct (Byte.eqb c "_"%byte); [congruence |].
  destruct (Py.scan_digits false 0 0 (c :: s2')) as [[[[v n] pu] rest] |];
    [| congruence].
  destruct pu; [congruence |].
  destruct (Nat.eqb n 0); [congruence |].
  destruct (Py.skip_space rest); congruence.
Qed.

End IntLiteral.

(** ** Trimming *)

Section Strip.

Variable chars : bytes.

Lemma lstrip_app pre s : all_in chars pre -> Py.lstrip chars (pre ++ s) = Py.lstrip chars s.
Proof.
  induction 1 as [| c pre Hc _ IH]; simpl; [reflexivity |].
  rewrite Hc. exact IH.
Qed.

Lemma lstrip_keep c s : Py.mem c chars = false -> Py.lstrip chars (c :: s) = c :: s.
Proof. intros H. simpl. rewrite H. reflexivity. Qed.

Lemma all_in_rev s : all_in chars s -> all_in chars (rev s).
Proof. apply Forall_rev. Qed.

(** A text whose first and last byte are not in [chars] survives
    [strip], whatever bytes of [chars] surround it. *)
Lemma strip_core pre first middle last suf :
  all_in chars pre -> all_in chars suf ->
  Py.mem first chars = false -> Py.mem last chars = false ->
  first :: middle = rev (last :: rev (removelast (first :: middle))) ->
  Py.strip chars (pre ++ (first :: middle) ++ suf) = first :: middle.
Proof.
  intros Hpre Hsuf Hf Hl Hshape.
  unfold Py.strip, Py.rstrip.
  rewrite lstrip_app by assumption.
  change ((first :: middle) ++ suf) with (first :: (middle ++ suf)).
  rewrite lstrip_keep by assumption.
  change (first :: middle ++ suf) with ((first :: middle) ++ suf).
  rewrite rev_app_distr, lstrip_app by (apply all_in_rev; assumption).
  rewrite Hshape at 1. rewrite rev_involutive.
  rewrite lstrip_keep by assumption.
  symmetry. exact Hshape.
Qed.

End Strip.

Lemma rev_last_shape (c : byte) (s : bytes) :
  s ++ [c] = rev (c :: rev (removelast (s ++ [c]))).
Proof.
  rewrite removelast_last. simpl. rewrite rev_involutive. reflexivity.
Qed.

(** A literal that begins with a sign or a digit and has no white space
    around it: the shape in which it survives trimming. *)
Lemma strip_bare_literal pre sg sv d s suf :
  trimmed pre -> trimmed suf -> sign_of sg sv ->
  Py.isdigit d = true -> digit_tail s ->
  Py.strip trim_chars (pre ++ (sg ++ d :: s) ++ suf) = sg ++ d :: s.
Proof.
  intros Hpre Hsuf Hsg Hd Hs.
  assert (Hlast : exists t l, d :: s = t ++ [l] /\ Py.isdigit l = true).
  { clear - Hd Hs. revert d Hd.
    induction Hs as [| d' s Hd' _ IH | d' s Hd' _ IH]; intros d Hd.
    - exists [], d. auto.
    - destruct (IH d' Hd') as (t & l & -> & Hl). exists (d :: t), l. auto.
    - destruct (IH d' Hd') as (t & l & -> & Hl).
      exists (d :: "_"%byte :: t), l. auto. }
  destruct Hlast as (t & l & Heq & Hl).
  destruct Hsg; cbn [app].
  - apply (strip_core trim_chars pre d s l suf);
      auto using digit_not_trimmed.
    rewrite Heq. exact (rev_last_shape l t).
  - apply (strip_core trim_chars pre "+"%byte (d :: s) l suf);
      auto using digit_not_trimmed.
    rewrite Heq. exact (rev_last_shape l ("+"%byte :: t)).
  - apply (strip_core trim_chars pre "-"%byte (d :: s) l suf);
      auto using digit_not_trimmed.
    rewrite Heq. exact (rev_last_shape l ("-"%byte :: t)).
Qed.

Lemma strip_str pre n suf :
  trimmed pre -> trimmed suf ->
  Py.strip trim_chars (pre ++ Py.str n ++ suf) = Py.str n.
Proof.
  intros Hpre Hsuf.
  destruct (Z_lt_le_dec n 0) as [Hn | Hn].
  - destruct (str_neg n Hn) as (d & ds & -> & Hall & _).
    inversion Hall; subst.
    apply (strip_bare_literal pre ["-"%byte] (-1) d ds suf);
      auto using all_digits_tail. constructor.
  - destruct (str_nonneg n Hn) as (d & ds & -> & Hall & _).
    inversion Hall; subst.
    apply (strip_bare_literal pre [] 1 d ds suf);
      auto using all_digits_tail. constructor.
Qed.

(** ** The socket and the header decoder *)

Section Socket.

Lemma take_all n s : len s <= n -> take n s = s.
Proof.
  unfold len. revert n. induction s as [| c s IH]; intros n H; simpl.
  - reflexivity.
  - simpl List.length in H.
    destruct (n <=? 0) eqn:Hn; [apply Z.leb_le in Hn; lia |].
    rewrite IH by lia. reflexivity.
Qed.

Lemma take_app n s rest : len s = n -> take n (s ++ rest) = s.
Proof.
  unfold len. revert n. induction s as [| c s IH]; intros n H; simpl.
  - simpl in H. subst n. destruct rest; reflexivity.
  - simpl List.length in H.
    destruct (n <=? 0) eqn:Hn; [apply Z.leb_le in Hn; lia |].
    rewrite IH by lia. reflexivity.
Qed.

Lemma consume_length_header_eq w :
  consume_length_header w
  = (Py.int (Py.strip trim_chars (fst (recv_bytes 32 (incoming w)))),
     {| server_up := server_up w;
        incoming := snd (recv_bytes 32 (incoming w));
        trace := trace w ++ [EvHeader (fst (recv_bytes 32 (incoming w)))] |}).
Proof.
  unfold consume_length_header, bind, recv, emit, lift.
  change (32 <? 0) with false. change (PY_SSIZE_T_MAX <? 32) with false.
  cbv iota.
  destruct (recv_bytes 32 (incoming w)) as [raw inc]. reflexivity.
Qed.

(** The decoder on a header that arrives in one piece. *)
Lemma decode_chunk w raw rest :
  incoming w = raw :: rest -> (List.length raw <= 32)%nat ->
  fst (consume_length_header w) = Py.int (Py.strip trim_chars raw).
Proof.
  intros Hinc Hlen. rewrite consume_length_header_eq, Hinc. cbn [fst recv_bytes].
  rewrite take_all by (unfold len; lia). reflexivity.
Qed.

End Socket.

(** ** The frame codec *)

Section Codec.

Lemma trimmed_padding k : trimmed (b ">" ++ repeat " "%byte k).
Proof.
  apply Forall_app. split.
  - repeat constructor.
  - apply Forall_forall. intros c Hc. apply repeat_spec in Hc. subst c.
    reflexivity.
Qed.

Lemma trimmed_opening : trimmed (b "<length ").
Proof. repeat constructor. Qed.

Lemma ljust_length width s :
  List.length (Py.ljust width s) = Nat.max width (List.length s).
Proof. unfold Py.ljust. rewrite length_app, repeat_length. lia. Qed.

(** The padded header as text around the digits. *)
Lemma header_shape n :
  Py.ljust 32 (header_text n)
  = b "<length " ++ Py.str n
      ++ (b ">" ++ repeat " "%byte (32 - List.length (header_text n))).
Proof.
  unfold Py.ljust, header_text. rewrite <- !app_assoc. reflexivity.
Qed.

Lemma header_decodes n :
  Py.int (Py.strip trim_chars (Py.ljust 32 (header_text n))) = Ok n.
Proof.
  rewrite header_shape.
  rewrite strip_str by auto using trimmed_opening, trimmed_padding.
  apply int_complete, str_literal.
Qed.

End Codec.

(** C3.  Header round trip: when the text [<length N>] of a payload of
    [N] bytes fits the 32-byte field, decoding the first 32 bytes of
    the frame, as [consume_length_header] receives them, gives back
    exactly [N = len(payload)]. *)
Theorem header_round_trip (data : bytes) (rest : list bytes) (w : world) :
  (List.length (header_text (len data)) <= 32)%nat ->
  incoming w = add_length_header data :: rest ->
  fst (consume_length_header w) = Ok (len data).
Proof.
  intros Hfit Hinc.
  rewrite consume_length_header_eq, Hinc. cbn [fst recv_bytes].
  unfold add_length_header. fold (header_text (len data)).
  rewrite take_app.
  - apply header_decodes.
  - unfold len in *. rewrite ljust_length. lia.
Qed.

Lemma header_round_trip_witness :
  (List.length (header_text (len (b "[1, 22]"))) <= 32)%nat
  /\ fst (consume_length_header (world0 [add_length_header (b "[1, 22]")]))
     = Ok 7.
Proof.
  split.
  - vm_compute; lia.
  - apply (header_round_trip (b "[1, 22]") [] (world0 [add_length_header (b "[1, 22]")])).
    + vm_compute; lia.
    + reflexivity.
Defined.



(** C9, as the code has it.  On a header that arrives in one piece,
    [consume_length_header] raises [ValueError] exactly when what is
    left after trimming is not an integer literal of Python: optional
    white space, an optional sign [+] or [-], decimal digits with single
    underscores between them, optional white space.  A literal with a
    minus sign is accepted. *)
Theorem consume_length_header_fails_iff (w : world) (raw : bytes) (rest : list bytes) :
  incoming w = raw :: rest -> (List.length raw <= 32)%nat ->
  (fst (consume_length_header w) = Raise ValueError
   <-> ~ exists k, int_literal (Py.strip trim_chars raw) k).
Proof.
  intros Hinc Hlen. rewrite (decode_chunk w raw rest Hinc Hlen).
  split.
  - intros Hfail [k Hk]. apply int_complete in Hk. congruence.
  - intros Hnone.
    destruct (Py.int (Py.strip trim_chars raw)) as [k | e] eqn:Hint.
    + exfalso. apply Hnone. exists k. apply int_sound. exact Hint.
    + f_equal. apply (int_raises _ _ Hint).
Qed.

Lemma consume_length_header_fails_iff_witness :
  (List.length garbled_header <= 32)%nat
  /\ (fst (consume_length_header (world0 [garbled_header])) = Raise ValueError
      <-> ~ exists k, int_literal (Py.strip trim_chars garbled_header) k).
Proof.
  split.
  - vm_compute; lia.
  - apply (consume_length_header_fails_iff (world0 [garbled_header]) garbled_header []).
    + reflexivity.
    + vm_compute; lia.
Defined.

(** C9, counterexample.  The 32-byte header [-5] padded with spaces is
    not a non-negative decimal integer after trimming, and it decodes,
    to the negative count -5. *)
Lemma consume_length_header_negative :
  List.length negative_header = 32%nat
  /\ Py.strip trim_chars negative_header = b "-5"
  /\ fst (consume_length_header (world0 [negative_header])) = Ok (-5).
Proof. repeat split; reflexivity. Qed.

(** C10.  Decoding is permissive: on a header of at most 32 bytes that
    arrives in one piece, whenever trimming the bytes of [<length> ]
    from both ends leaves an integer literal for [k], the decoder
    returns [k]; the shape [<length N>] is not checked. *)
Theorem consume_length_header_permissive
        (w : world) (raw : bytes) (rest : list bytes) (k : Z) :
  incoming w = raw :: rest -> (List.length raw <= 32)%nat ->
  int_literal (Py.strip trim_chars raw) k ->
  fst (consume_length_header w) = Ok k.
Proof.
  intros Hinc Hlen Hlit. rewrite (decode_chunk w raw rest Hinc Hlen).
  apply int_complete. exact Hlit.
Qed.

(** Shapes that [consume_length_header] accepts: the digits of [k]
    with any bytes of the trimmed set, in any order, on either side,
    bare digits padded with spaces among them. *)
Lemma trimmed_surroundings_accepted (w : world) (pre suf : bytes) (rest : list bytes) (k : Z) :
  trimmed pre -> trimmed suf ->
  incoming w = (pre ++ Py.str k ++ suf) :: rest ->
  (List.length (pre ++ Py.str k ++ suf) <= 32)%nat ->
  fst (consume_length_header w) = Ok k.
Proof.
  intros Hpre Hsuf Hinc Hlen.
  rewrite (decode_chunk w _ rest Hinc Hlen), strip_str by assumption.
  apply int_complete, str_literal.
Qed.

Lemma consume_length_header_permissive_witness :
  (List.length scrambled_header <= 32)%nat
  /\ int_literal (Py.strip trim_chars scrambled_header) 42
  /\ fst (consume_length_header (world0 [scrambled_header])) = Ok 42.
Proof.
  assert (Hlit : int_literal (Py.strip trim_chars scrambled_header) 42).
  { apply int_sound. reflexivity. }
  split; [vm_compute; lia |].
  split; [exact Hlit |].
  apply (consume_length_header_permissive (world0 [scrambled_header]) scrambled_header [] 42).
  - reflexivity.
  - vm_compute; lia.
  - exact Hlit.
Defined.

(** ** Serialisation failures *)

Lemma all_ok_raises parts e :
  Json.all_ok parts = Raise e -> In (Raise e) parts.
Proof.
  induction parts as [| [x | e'] parts IH]; simpl; intros H.
  - discriminate.
  - destruct (Json.all_ok parts); [discriminate |].
    injection H as ->. right. apply IH. reflexivity.
  - injection H as ->. left. reflexivity.
Qed.

(** [json.dumps] raises nothing but [TypeError]; in particular never a
    [JSONDecodeError]. *)
Lemma dumps_raises obj : forall e, Json.dumps obj = Raise e -> e = TypeError.
Proof.
  induction obj as [| v | v | v | items IH | items IH | v | items]
    using pyobj_nested_ind; intros e H; cbn [Json.dumps] in H.
  - discriminate.
  - destruct v; discriminate.
  - discriminate.
  - discriminate.
  - destruct (Json.all_ok (map Json.dumps items)) eqn:Hall; [discriminate |].
    injection H as ->. apply all_ok_raises in Hall.
    apply in_map_iff in Hall. destruct Hall as (x & Hx & Hin).
    rewrite Forall_forall in IH. exact (IH x Hin e Hx).
  - match type of H with
    | match Json.all_ok (map ?f items) with _ => _ end = _ =>
        destruct (Json.all_ok (map f items)) eqn:Hall; [discriminate |]
    end.
    injection H as ->. apply all_ok_raises in Hall.
    apply in_map_iff in Hall. destruct Hall as (kv & Hkv & Hin).
    rewrite Forall_forall in IH. specialize (IH kv Hin).
    destruct (Json.dumps (snd kv)) eqn:Hd; [discriminate |].
    injection Hkv as ->. exact (IH e eq_refl).
  - congruence.
  - congruence.
Qed.

(** ** The status check *)

Section Status.

Lemma bytes_eqb_eq x y : Py.bytes_eqb x y = true <-> x = y.
Proof.
  unfold Py.bytes_eqb. destruct (list_eq_dec Byte.byte_eq_dec x y); split;
    congruence.
Qed.

Lemma world_eta w :
  {| server_up := server_up w; incoming := incoming w; trace := trace w |} = w.
Proof. destruct w; reflexivity. Qed.

(** [accept_status] touches nothing but the trace, where it adds its
    [complaint]. *)
Lemma accept_status_eq status w :
  accept_status status w
  = (verdict status,
     {| server_up := server_up w;
        incoming := incoming w;
        trace := trace w ++ complaint status |}).
Proof.
  unfold verdict, complaint, accept_status.
  destruct (Py.bytes_eqb status MSG_OK_DONE).
  - cbn. rewrite app_nil_r, world_eta. reflexivity.
  - destruct status as [| c status].
    + cbn. rewrite app_nil_r, world_eta. reflexivity.
    + destruct (negb (Py.startswith (c :: status) (b "MSG-")));
        [reflexivity |].
      destruct (negb (Py.endswith (c :: status) (b "-DONE"))); reflexivity.
Qed.


Lemma verdict_empty : verdict [] = Raise InterruptedError.
Proof. reflexivity. Qed.

Lemma verdict_malformed status :
  status <> [] -> status <> MSG_OK_DONE -> verdict status = Ok false.
Proof.
  intros Hne Hns. unfold verdict, accept_status.
  destruct (Py.bytes_eqb status MSG_OK_DONE) eqn:Heq.
  - apply bytes_eqb_eq in Heq. contradiction.
  - destruct status as [| c status]; [contradiction |].
    destruct (negb (Py.startswith (c :: status) (b "MSG-")));
      [reflexivity |].
    destruct (negb (Py.endswith (c :: status) (b "-DONE"))); reflexivity.
Qed.

Lemma complaint_sentinel : complaint MSG_OK_DONE = [].
Proof. reflexivity. Qed.

Lemma verdict_cases status :
  (status = MSG_OK_DONE /\ verdict status = Ok true)
  \/ (status = [] /\ verdict status = Raise InterruptedError)
  \/ (status <> [] /\ status <> MSG_OK_DONE /\ verdict status = Ok false).
Proof.
  destruct (list_eq_dec Byte.byte_eq_dec status MSG_OK_DONE) as [-> | Hns].
  - left. split; reflexivity.
  - destruct status as [| c status].
    + right; left. split; reflexivity.
    + right; right. repeat split; try assumption; try discriminate.
      apply verdict_malformed; [discriminate | assumption].
Qed.

(** A complaint is a single [print]. *)
Lemma complaint_prints status :
  complaint status = []
  \/ exists file args, complaint status = [EvPrint file args].
Proof.
  unfold complaint, accept_status.
  destruct (Py.bytes_eqb status MSG_OK_DONE); [left; reflexivity |].
  destruct status as [| c status]; [left; reflexivity |].
  right.
  destruct (negb (Py.startswith (c :: status) (b "MSG-")));
    [eexists; eexists; reflexivity |].
  destruct (negb (Py.endswith (c :: status) (b "-DONE")));
    eexists; eexists; reflexivity.
Qed.

End Status.

(** C6.  The status classifier is exhaustive and ordered.  Whatever the
    status, [accept_status] shows exactly the class that the ordered
    rules of the specification give ([observed] reads one class off
    its outcome, and it is [classify_spec status]); that class is
    [accepted] exactly for the sentinel [MSG-OK-DONE], in which case
    and only then the function returns [True]; it is
    [connection_closed] exactly for the empty status, the one case in
    which it raises; so every non-empty status falls in exactly one of
    the four other classes. *)
Theorem accept_status_classification (status : bytes) (w : world) :
  (exists printed,
      trace (snd (accept_status status w)) = trace w ++ printed
      /\ observed (fst (accept_status status w)) printed
         = Some (classify_spec status))
  /\ (classify_spec status = accepted <-> status = MSG_OK_DONE)
  /\ (fst (accept_status status w) = Ok true <-> status = MSG_OK_DONE)
  /\ (classify_spec status = connection_closed <-> status = [])
  /\ (fst (accept_status status w) = Raise InterruptedError <-> status = []).
Proof.
  rewrite accept_status_eq. cbn [fst snd trace].
  split; [exists (complaint status); split; [reflexivity |] |].
  - unfold verdict, complaint, classify_spec, accept_status.
    destruct status as [| c status]; [reflexivity |].
    destruct (Py.bytes_eqb (c :: status) MSG_OK_DONE); [reflexivity |].
    destruct (negb (Py.startswith (c :: status) (b "MSG-")));
      [reflexivity |].
    destruct (negb (Py.endswith (c :: status) (b "-DONE"))); reflexivity.
  - destruct (verdict_cases status) as [[-> Hv] | [[-> Hv] | (Hne & Hns & Hv)]];
      rewrite Hv.
    + repeat split; intros; try reflexivity; discriminate.
    + repeat split; intros; try reflexivity; discriminate.
    + assert (Hc : classify_spec status <> accepted
                   /\ classify_spec status <> connection_closed).
      { unfold classify_spec. destruct status as [| c status]; [contradiction |].
        destruct (Py.bytes_eqb (c :: status) MSG_OK_DONE) eqn:Heq.
        - apply bytes_eqb_eq in Heq. contradiction.
        - destruct (negb (Py.startswith (c :: status) (b "MSG-")));
            [split; discriminate |].
          destruct (negb (Py.endswith (c :: status) (b "-DONE")));
            split; discriminate. }
      destruct Hc as [Hc1 Hc2].
      repeat split; intros; try contradiction; try discriminate.
Qed.

(** ** The retry loop *)

Section Loop.

Lemma bind_ok {A B} (m : M A) (k : A -> M B) w a w1 :
  m w = (Ok a, w1) -> bind m k w = k a w1.
Proof. intros H. unfold bind. rewrite H. reflexivity. Qed.

Lemma bind_raise {A B} (m : M A) (k : A -> M B) w e w1 :
  m w = (Raise e, w1) -> bind m k w = (Raise e, w1).
Proof. intros H. unfold bind. rewrite H. reflexivity. Qed.

(** One turn of the loop, written out. *)
Lemma send_loop_step m data w :
  send_loop (S m) data w
  = let frame := add_length_header data in
    let raw := fst (recv_bytes 32 (incoming w)) in
    let inc1 := snd (recv_bytes 32 (incoming w)) in
    let tr1 := (trace w ++ [EvSendall frame]) ++ [EvHeader raw] in
    match Py.int (Py.strip trim_chars raw) with
    | Raise e => (Raise e, with_trace w inc1 tr1)
    | Ok n =>
        if n <? 0 then (Raise ValueError, with_trace w inc1 tr1)
        else if PY_SSIZE_T_MAX <? n
             then (Raise OverflowError, with_trace w inc1 tr1)
             else
               let status := fst (recv_bytes n inc1) in
               let inc2 := snd (recv_bytes n inc1) in
               let w3 := with_trace w inc2
                           ((tr1 ++ [EvStatus n status]) ++ complaint status) in
               match verdict status with
               | Raise e => (Raise e, w3)
               | Ok true => (Ok (S m), w3)
               | Ok false => send_loop m data w3
               end
    end.
Proof.
  cbn [send_loop]. unfold sendall.
  unfold bind at 1. cbn [emit].
  unfold bind at 1. rewrite consume_length_header_eq. cbn [incoming trace server_up fst snd].
  destruct (Py.int (Py.strip trim_chars (fst (recv_bytes 32 (incoming w)))))
    as [n | e]; [| reflexivity].
  unfold bind at 1. unfold recv. cbn [incoming trace server_up].
  destruct (n <? 0); [reflexivity |].
  destruct (PY_SSIZE_T_MAX <? n); [reflexivity |].
  destruct (recv_bytes n (snd (recv_bytes 32 (incoming w)))) as [status inc2].
  cbn [fst snd].
  unfold bind at 1. cbn [emit incoming trace server_up].
  unfold bind at 1. rewrite accept_status_eq. cbn [incoming trace server_up].
  destruct (verdict status) as [[|] | e]; reflexivity.
Qed.

Lemma send_loop_trace m : forall data w,
  exists tr,
    trace (snd (send_loop m data w)) = trace w ++ tr
    /\ server_up (snd (send_loop m data w)) = server_up w
    /\ loop_trace (add_length_header data) m (fst (send_loop m data w)) tr.
Proof.
  induction m as [| m IH]; intros data w.
  - exists []. cbn. rewrite app_nil_r. repeat split. constructor.
  - rewrite send_loop_step. cbv zeta.
    set (frame := add_length_header data).
    set (raw := fst (recv_bytes 32 (incoming w))).
    set (inc1 := snd (recv_bytes 32 (incoming w))).
    destruct (Py.int (Py.strip trim_chars raw)) as [n | e] eqn:Hint.
    + destruct (n <? 0) eqn:Hneg.
      { exists [EvSendall frame; EvHeader raw]. cbn [fst snd with_trace trace server_up].
        rewrite <- app_assoc. repeat split.
        apply (loop_bad_length frame m raw n); [assumption |].
        left. apply Z.ltb_lt in Hneg. auto. }
      destruct (PY_SSIZE_T_MAX <? n) eqn:Hbig.
      { exists [EvSendall frame; EvHeader raw]. cbn [fst snd with_trace trace server_up].
        rewrite <- app_assoc. repeat split.
        apply (loop_bad_length frame m raw n); [assumption |].
        right. apply Z.ltb_lt in Hbig. auto. }
      set (status := fst (recv_bytes n inc1)).
      set (inc2 := snd (recv_bytes n inc1)).
      destruct (verdict_cases status) as [[Hs Hv] | [[Hs Hv] | (Hne & Hns & Hv)]];
        rewrite Hv.
      * exists [EvSendall frame; EvHeader raw; EvStatus n MSG_OK_DONE].
        cbn [fst snd with_trace trace server_up].
        rewrite Hs, complaint_sentinel, app_nil_r, <- !app_assoc.
        repeat split. constructor. assumption.
      * exists [EvSendall frame; EvHeader raw; EvStatus n []].
        cbn [fst snd with_trace trace server_up].
        rewrite Hs. change (complaint []) with (@nil event).
        rewrite app_nil_r, <- !app_assoc.
        repeat split. constructor. assumption.
      * match goal with |- context [send_loop m data ?w3'] =>
          set (w3 := w3') end.
        assert (Htw : trace w3
                      = trace w ++ EvSendall frame :: EvHeader raw
                          :: EvStatus n status :: complaint status).
        { unfold w3. cbn [with_trace trace]. rewrite <- !app_assoc. reflexivity. }
        assert (Huw : server_up w3 = server_up w) by reflexivity.
        clearbody w3.
        destruct (IH data w3) as (tr & Htr & Hup & Hloop).
        exists (EvSendall frame :: EvHeader raw :: EvStatus n status
                  :: complaint status ++ tr).
        rewrite Htr, Hup, Htw, Huw, <- app_assoc. repeat split.
        constructor; assumption.
    + pose proof (int_raises _ _ Hint) as ->.
      exists [EvSendall frame; EvHeader raw]. cbn [fst snd with_trace trace server_up].
      rewrite <- app_assoc. repeat split.
      constructor. assumption.
Qed.

End Loop.

(** ** One collector, and the session *)

Section Session.

Lemma for_body_trace total i c sd w :
  exists tr,
    trace (snd (for_body total i c sd w)) = trace w ++ tr
    /\ server_up (snd (for_body total i c sd w)) = server_up w
    /\ body_trace total i c sd (fst (for_body total i c sd w)) tr.
Proof.
  destruct (for_body total i c sd w) as [r w'] eqn:H. cbn [fst snd].
  unfold for_body in H. unfold bind at 1 in H. cbn [emit] in H.
  fold (is_success (request c)) in H.
  destruct (is_success (request c)) eqn:Hok.
  - unfold print in H. unfold bind at 1 in H.
    cbn [emit trace server_up incoming] in H.
    destruct (Json.dumps (results c)) as [data | e] eqn:Hd.
    + match type of H with bind (send_loop 3 data) ?k' ?w2' = _ =>
        set (w2 := w2') in H; set (k0 := k') in H end.
      assert (Htw : trace w2
                    = trace w ++ [EvRequest c; EvPrint Stderr [Obj (results c)]]).
      { unfold w2. cbn [trace]. rewrite <- app_assoc. reflexivity. }
      assert (Huw : server_up w2 = server_up w) by reflexivity.
      clearbody w2.
      destruct (send_loop_trace 3 data w2) as (tr & Htr & Hup & Hloop).
      unfold bind at 1 in H.
      destruct (send_loop 3 data w2) as [[m | e] w3]; cbn [fst snd] in *.
      * exists (EvRequest c :: EvPrint Stderr [Obj (results c)] :: tr
                  ++ (if Nat.eqb m 0
                      then [EvPrint Stdout [Text (FailedTooMany data); SysStderr]]
                      else [])
                  ++ (if i <? total - 1 then [EvSendall NEXT] else [])).
        unfold k0, print, sendall, bind, emit, ret in H.
        pose proof (body_sent total i c sd data m tr Hok Hd Hloop) as Hb.
        destruct (Nat.eqb m 0); destruct (i <? total - 1);
          cbn [fst snd trace server_up incoming] in H;
          injection H as <- <-; cbn [trace server_up];
          (split; [| split; [| exact Hb]]);
          rewrite ?Htr, ?Htw, ?Hup, ?Huw, <- ?app_assoc;
          cbn [app]; rewrite ?app_nil_r; reflexivity.
      * injection H as <- <-.
        exists (EvRequest c :: EvPrint Stderr [Obj (results c)] :: tr).
        rewrite Htr, Htw, Hup, Huw, <- app_assoc. repeat split.
        apply (body_fatal total i c sd data e tr); assumption.
    + pose proof (dumps_raises _ _ Hd) as ->.
      cbn [issubclass] in H. unfold raise in H. injection H as <- <-.
      cbn [trace server_up].
      exists [EvRequest c; EvPrint Stderr [Obj (results c)]].
      rewrite <- app_assoc. repeat split.
      constructor; assumption.
  - unfold ret in H. injection H as <- <-. cbn [trace server_up].
    exists [EvRequest c]. repeat split. constructor. assumption.
Qed.

Lemma sends_app tr1 tr2 : sends (tr1 ++ tr2) = sends tr1 ++ sends tr2.
Proof.
  induction tr1 as [| ev tr1 IH]; [reflexivity |].
  destruct ev; cbn [app sends]; rewrite IH; reflexivity.
Qed.

Lemma sends_complaint status : sends (complaint status) = [].
Proof.
  destruct (complaint_prints status) as [-> | (file & args & ->)]; reflexivity.
Qed.

Lemma calm_complaint status : Forall calm (complaint status).
Proof.
  destruct (complaint_prints status) as [-> | (file & args & ->)];
    repeat constructor.
Qed.

Lemma frame_not_DONE data : add_length_header data <> DONE.
Proof.
  intros H. apply (f_equal (@List.length byte)) in H.
  unfold add_length_header in H. rewrite length_app, ljust_length in H.
  change (List.length DONE) with 4%nat in H. lia.
Qed.

Lemma ends_calm_app {A} (r : result A) tr1 tr2 :
  Forall calm tr1 -> ends r tr2 -> ends r (tr1 ++ tr2).
Proof.
  intros H1 H2. destruct r as [a | e]; cbn [ends] in *.
  - apply Forall_app. auto.
  - destruct H2 as (tr0 & tl & -> & H0 & Htl).
    exists (tr1 ++ tr0), tl. rewrite app_assoc.
    repeat split; [apply Forall_app; auto | exact Htl].
Qed.

Lemma ends_calm {A} (e : exn) tr : Forall calm tr -> ends (@Raise A e) tr.
Proof.
  intros H. exists tr, []. rewrite app_nil_r. auto.
Qed.

Lemma loop_trace_ends frame m r tr :
  frame <> DONE -> loop_trace frame m r tr -> ends r tr.
Proof.
  intros Hf. induction 1 as [| m raw n Hn | m raw n status r tr Hn Hne Hns _ IH
                             | m raw n Hn | m raw Hn | m raw n e Hn He].
  - constructor.
  - repeat constructor; cbn [calm]; eauto. discriminate.
  - apply (ends_calm_app r (EvSendall frame :: EvHeader raw :: EvStatus n status
                              :: complaint status) tr).
    + repeat constructor; cbn [calm]; eauto. apply calm_complaint.
    + exact IH.
  - exists [EvSendall frame; EvHeader raw], [EvStatus n []].
    repeat split; [repeat constructor; cbn [calm]; eauto |].
    right; left. eauto.
  - exists [EvSendall frame], [EvHeader raw].
    repeat split; [repeat constructor; cbn [calm]; eauto |].
    right; right. eauto.
  - apply ends_calm. repeat constructor; cbn [calm]; eauto.
Qed.

Lemma body_trace_ends total i c sd r tr :
  body_trace total i c sd r tr -> ends r tr.
Proof.
  intros [Hs | Hs Hd | data m tr' Hs Hd Hl | data e tr' Hs Hd Hl].
  - repeat constructor.
  - apply ends_calm. repeat constructor.
  - apply loop_trace_ends in Hl; [| apply frame_not_DONE].
    cbn [ends] in *. repeat constructor.
    apply Forall_app. split; [exact Hl |].
    apply Forall_app. split.
    + destruct (Nat.eqb m 0); repeat constructor.
    + destruct (i <? total - 1); repeat constructor. discriminate.
  - apply loop_trace_ends in Hl; [| apply frame_not_DONE].
    apply (ends_calm_app (Raise e) [EvRequest c; EvPrint Stderr [Obj (results c)]] tr').
    + repeat constructor.
    + exact Hl.
Qed.

Lemma loop_trace_sends frame m r tr :
  loop_trace frame m r tr ->
  forall m', r = Ok m' ->
  exists k, sends tr = repeat frame k /\ (k <= m)%nat /\ (m <> 0 -> 1 <= k)%nat.
Proof.
  induction 1 as [| m raw n Hn | m raw n status r tr Hn Hne Hns _ IH
                  | m raw n Hn | m raw Hn | m raw n e Hn He];
    intros m' Hr; try discriminate.
  - exists 0%nat. repeat split; lia.
  - exists 1%nat. repeat split; lia.
  - destruct (IH m' Hr) as (k & Hk & Hle & _).
    exists (S k). cbn [sends]. rewrite sends_app, sends_complaint, Hk.
    repeat split; lia.
Qed.

Lemma body_trace_sends total i c sd r tr :
  body_trace total i c sd r tr ->
  forall sd', r = Ok sd' ->
  exists k, (1 <= k <= 3)%nat /\ sends tr = block total i c k.
Proof.
  intros [Hs | Hs Hd | data m tr' Hs Hd Hl | data e tr' Hs Hd Hl] sd' Hr;
    try discriminate.
  - exists 1%nat. unfold block. rewrite Hs. split; [lia | reflexivity].
  - destruct (loop_trace_sends _ _ _ _ Hl m eq_refl) as (k & Hk & Hle & Hge).
    exists k. split; [lia |].
    unfold block. rewrite Hs, Hd. cbn [sends].
    rewrite !sends_app, Hk.
    destruct (Nat.eqb m 0); destruct (i <? total - 1); reflexivity.
Qed.

Lemma for_loop_trace cs : forall total i sd w,
  exists tr,
    trace (snd (for_loop total i cs sd w)) = trace w ++ tr
    /\ server_up (snd (for_loop total i cs sd w)) = server_up w
    /\ ends (fst (for_loop total i cs sd w)) tr
    /\ (fst (for_loop total i cs sd w) = Ok tt ->
        exists ks, List.length ks = List.length cs /\ attempts_in_range ks
                   /\ sends tr = blocks total i cs ks).
Proof.
  induction cs as [| c cs IH]; intros total i sd w.
  - exists []. cbn. rewrite app_nil_r. repeat split; [constructor |].
    intros _. exists []. repeat split. constructor.
  - cbn [for_loop]. unfold bind.
    destruct (for_body_trace total i c sd w) as (tr1 & Htr1 & Hup1 & Hb).
    destruct (for_body total i c sd w) as [[sd1 | e] w1]; cbn [fst snd] in *.
    + destruct (IH total (i + 1) sd1 w1) as (tr2 & Htr2 & Hup2 & He2 & Hs2).
      exists (tr1 ++ tr2). rewrite Htr2, Htr1, Hup2, Hup1, app_assoc.
      repeat split.
      * apply ends_calm_app; [| exact He2].
        apply body_trace_ends in Hb. exact Hb.
      * intros Hok. destruct (Hs2 Hok) as (ks & Hlen & Hks & Hsends).
        destruct (body_trace_sends _ _ _ _ _ _ Hb sd1 eq_refl) as (k & Hk & Hsk).
        exists (k :: ks). cbn [List.length blocks].
        rewrite sends_app, Hsk, Hsends, Hlen.
        repeat split. constructor; assumption.
    + exists tr1. repeat split; try assumption.
      * apply body_trace_ends in Hb. exact Hb.
      * discriminate.
Qed.

(** The whole run: a normal end has sent the blocks of the
    collectors, then [DONE]; any other end has sent no [DONE]. *)
Lemma main_trace cs w :
  match fst (main cs w) with
  | Ok _ =>
      exists body ks,
        trace (snd (main cs w))
        = trace w ++ EvConnect :: body ++ [EvSendall DONE; EvClose]
        /\ Forall calm body
        /\ List.length ks = List.length cs /\ attempts_in_range ks
        /\ sends body = blocks (len cs) 0 cs ks
  | Raise e =>
      exists body,
        trace (snd (main cs w)) = trace w ++ body ++ [EvClose]
        /\ ends (@Raise unit e) body
  end.
Proof.
  destruct (main cs w) as [r w'] eqn:H. cbn [fst snd].
  unfold main, with_socket, connect in H. unfold bind at 1 in H.
  destruct (server_up w) eqn:Hup.
  - cbn [emit] in H. unfold bind at 1 in H.
    match type of H with context [for_loop ?t ?i cs ?sd ?w1'] =>
      set (w1 := w1') in H end.
    assert (Htw : trace w1 = trace w ++ [EvConnect]) by reflexivity.
    clearbody w1.
    destruct (for_loop_trace cs (len cs) 0 None w1) as (tr & Htr & _ & He & Hs).
    destruct (for_loop (len cs) 0 cs None w1) as [[[] | e] w2]; cbn [fst snd] in *.
    + destruct (Hs eq_refl) as (ks & Hlen & Hks & Hsends).
      cbn [sendall emit fst snd trace] in H. injection H as <- <-.
      exists tr, ks. cbn [trace].
      rewrite Htr, Htw, <- !app_assoc. repeat split; assumption.
    + cbn [emit fst snd trace] in H. injection H as <- <-.
      exists (EvConnect :: tr). cbn [trace].
      rewrite Htr, Htw, <- !app_assoc. split; [reflexivity |].
      apply (ends_calm_app (Raise e) [EvConnect] tr); [repeat constructor | exact He].
  - cbn [emit fst snd trace] in H. injection H as <- <-.
    exists []. cbn [trace]. split; [reflexivity |].
    apply ends_calm. constructor.
Qed.

End Session.

(** ** Sessions on concrete servers *)

Example session_of_three :
  fst (main [guardian; weather; guardian] obliging_server) = Ok tt
  /\ sends (trace (snd (main [guardian; weather; guardian] obliging_server)))
     = [frame_of guardian; NEXT; frame_of weather; NEXT; frame_of guardian; DONE].
Proof. split; reflexivity. Qed.

Example session_with_retry :
  fst (main [weather] busy_server) = Ok tt
  /\ trace (snd (main [weather] busy_server))
     = [EvConnect; EvRequest weather; EvPrint Stderr [Obj (results weather)];
        EvSendall (frame_of weather);
        EvHeader (Py.ljust 32 (b "<length 13>"));
        EvStatus 13 (b "MSG-BUSY-DONE");
        EvPrint Stderr [Text (Problematic (b "MSG-BUSY-DONE"))];
        EvSendall (frame_of weather);
        EvHeader (Py.ljust 32 (b "<length 3>"));
        EvStatus 3 (b "ERR");
        EvPrint Stdout [Text (UnexpectedStart (b "ERR")); SysStderr];
        EvSendall (frame_of weather);
        EvHeader (Py.ljust 32 (b "<length 6>"));
        EvStatus 6 (b "MSG-OK");
        EvPrint Stderr [Text (UnexpectedFinish (b "MSG-OK"))];
        EvPrint Stdout [Text (FailedTooMany (b "[1, 22]")); SysStderr];
        EvSendall DONE; EvClose].
Proof. split; reflexivity. Qed.

(** ** The session protocol *)


(** C1, as the code has it.  A run that ends normally has sent, for
    each registered collector in turn, its block, and then [DONE] as the
    last message.  The block of a collector whose [request()] status is
    outside [200, 300) is empty: no frame and no [NEXT].  The block of
    any other collector is its frame, sent between one and three times
    (accepted, or dropped after the third rejection), followed by [NEXT]
    when the collector is not the last of the registered list.  So no
    [NEXT] follows the last collector. *)
Theorem session_framing (API_CLIENTS : list Client) (w : world) :
  trace w = [] ->
  fst (main API_CLIENTS w) = Ok tt ->
  exists ks,
    List.length ks = List.length API_CLIENTS
    /\ attempts_in_range ks
    /\ sends (trace (snd (main API_CLIENTS w)))
       = blocks (len API_CLIENTS) 0 API_CLIENTS ks ++ [DONE].
Proof.
  intros Hw Hok. pose proof (main_trace API_CLIENTS w) as H.
  rewrite Hok in H. destruct H as (body & ks & Htr & _ & Hlen & Hks & Hsends).
  exists ks. rewrite Htr, Hw. cbn [app sends].
  rewrite sends_app, Hsends. auto.
Qed.

Lemma session_framing_witness :
  fst (main [guardian; offline; weather] hesitant_server) = Ok tt
  /\ exists ks,
      List.length ks = List.length [guardian; offline; weather]
      /\ attempts_in_range ks
      /\ sends (trace (snd (main [guardian; offline; weather] hesitant_server)))
         = blocks (len [guardian; offline; weather]) 0
                  [guardian; offline; weather] ks ++ [DONE].
Proof.
  split; [reflexivity |].
  apply (session_framing [guardian; offline; weather] hesitant_server); reflexivity.
Defined.

(** C1, counterexample.  Two registered collectors, the first answering
    404 and the second served at once: the run ends normally, and the
    first collector, which is not the last, is followed by no [NEXT]. *)
Lemma skipped_collector_without_NEXT :
  fst (main [offline; weather] obliging_server) = Ok tt
  /\ trace (snd (main [offline; weather] obliging_server))
     = [EvConnect; EvRequest offline;
        EvRequest weather; EvPrint Stderr [Obj (results weather)];
        EvSendall (frame_of weather);
        EvHeader (Py.ljust 32 (b "<length 11>")); EvStatus 11 MSG_OK_DONE;
        EvSendall DONE; EvClose]
  /\ ~ In NEXT (sends (trace (snd (main [offline; weather] obliging_server)))).
Proof.
  repeat split; try reflexivity.
  vm_compute. intros [H | [H | []]]; discriminate H.
Qed.

(** C7.  Fatal short-circuit: in every run in which some send attempt
    gets an empty status as its acknowledgment, [main] raises
    [InterruptedError] there and then: after that event the trace holds
    nothing but the closing of the socket, so no later collector is
    requested, and [DONE] is never sent. *)
Theorem empty_ack_aborts (API_CLIENTS : list Client) (w : world) (n : Z) :
  trace w = [] ->
  In (EvStatus n []) (trace (snd (main API_CLIENTS w))) ->
  fst (main API_CLIENTS w) = Raise InterruptedError
  /\ (exists before,
        trace (snd (main API_CLIENTS w)) = before ++ [EvStatus n []; EvClose])
  /\ ~ In (EvSendall DONE) (trace (snd (main API_CLIENTS w))).
Proof.
  intros Hw Hin. pose proof (main_trace API_CLIENTS w) as H.
  destruct (fst (main API_CLIENTS w)) as [[] | e].
  - destruct H as (body & ks & Htr & Hcalm & _). exfalso.
    rewrite Htr, Hw in Hin. cbn [app] in Hin.
    destruct Hin as [Hin | Hin]; [discriminate |].
    apply in_app_or in Hin. destruct Hin as [Hin | Hin].
    + rewrite Forall_forall in Hcalm. apply (Hcalm _ Hin). reflexivity.
    + destruct Hin as [Hin | [Hin | []]]; discriminate.
  - destruct H as (body & Htr & tr0 & tl & -> & Hcalm & Htl).
    rewrite Htr, Hw in *. cbn [app] in *.
    rewrite Forall_forall in Hcalm.
    assert (Hnot : ~ In (EvStatus n []) tr0).
    { intros Hin0. apply (Hcalm _ Hin0). reflexivity. }
    assert (Hdone : ~ In (EvSendall DONE) tr0).
    { intros Hin0. apply (Hcalm _ Hin0). reflexivity. }
    rewrite <- app_assoc in Hin.
    apply in_app_or in Hin. destruct Hin as [Hin | Hin]; [contradiction |].
    destruct Htl as [-> | [(n' & -> & ->) | (raw & -> & _ & _)]].
    + destruct Hin as [Hin | []]; discriminate.
    + destruct Hin as [Hin | [Hin | []]]; try discriminate.
      injection Hin as ->.
      repeat split.
      * exists tr0. rewrite <- app_assoc. reflexivity.
      * rewrite <- app_assoc. intros Hd. apply in_app_or in Hd.
        destruct Hd as [Hd | [Hd | [Hd | []]]]; try discriminate. contradiction.
    + destruct Hin as [Hin | [Hin | []]]; discriminate.
Qed.

Lemma empty_ack_aborts_witness :
  In (EvStatus 0 []) (trace (snd (main [guardian; weather; guardian] silent_server)))
  /\ fst (main [guardian; weather; guardian] silent_server) = Raise InterruptedError
  /\ (exists before,
        trace (snd (main [guardian; weather; guardian] silent_server))
        = before ++ [EvStatus 0 []; EvClose])
  /\ ~ In (EvSendall DONE)
          (trace (snd (main [guardian; weather; guardian] silent_server))).
Proof.
  assert (Hin : In (EvStatus 0 [])
                   (trace (snd (main [guardian; weather; guardian] silent_server)))).
  { vm_compute. find_in. }
  split; [exact Hin |].
  apply (empty_ack_aborts [guardian; weather; guardian] silent_server 0);
    [reflexivity | exact Hin].
Defined.

(** C8, as the code has it.  An acknowledgment header that does not
    decode is not retried: in every run in which some received header
    fails to decode, [main] raises [ValueError] there and then; after
    that event the trace holds nothing but the closing of the socket,
    so there is no further attempt, no later collector and no [DONE]. *)
Theorem undecodable_header_aborts (API_CLIENTS : list Client) (w : world) (raw : bytes) :
  trace w = [] ->
  In (EvHeader raw) (trace (snd (main API_CLIENTS w))) ->
  Py.int (Py.strip trim_chars raw) = Raise ValueError ->
  fst (main API_CLIENTS w) = Raise ValueError
  /\ (exists before,
        trace (snd (main API_CLIENTS w)) = before ++ [EvHeader raw; EvClose])
  /\ ~ In (EvSendall DONE) (trace (snd (main API_CLIENTS w))).
Proof.
  intros Hw Hin Hbad. pose proof (main_trace API_CLIENTS w) as H.
  assert (Hnot : forall tr, Forall calm tr -> ~ In (EvHeader raw) tr).
  { intros tr Hcalm Hin0. rewrite Forall_forall in Hcalm.
    destruct (Hcalm _ Hin0) as [k Hk]. congruence. }
  destruct (fst (main API_CLIENTS w)) as [[] | e].
  - destruct H as (body & ks & Htr & Hcalm & _). exfalso.
    rewrite Htr, Hw in Hin. cbn [app] in Hin.
    destruct Hin as [Hin | Hin]; [discriminate |].
    apply in_app_or in Hin. destruct Hin as [Hin | Hin].
    + exact (Hnot _ Hcalm Hin).
    + destruct Hin as [Hin | [Hin | []]]; discriminate.
  - destruct H as (body & Htr & tr0 & tl & -> & Hcalm & Htl).
    rewrite Htr, Hw in *. cbn [app] in *.
    assert (Hdone : ~ In (EvSendall DONE) tr0).
    { intros Hin0. rewrite Forall_forall in Hcalm.
      apply (Hcalm _ Hin0). reflexivity. }
    rewrite <- app_assoc in Hin.
    apply in_app_or in Hin.
    destruct Hin as [Hin | Hin]; [exfalso; exact (Hnot _ Hcalm Hin) |].
    destruct Htl as [-> | [(n' & -> & ->) | (raw' & -> & _ & ->)]].
    + destruct Hin as [Hin | []]; discriminate.
    + destruct Hin as [Hin | [Hin | []]]; discriminate.
    + destruct Hin as [Hin | [Hin | []]]; try discriminate.
      injection Hin as ->.
      repeat split.
      * exists tr0. rewrite <- app_assoc. reflexivity.
      * rewrite <- app_assoc. intros Hd. apply in_app_or in Hd.
        destruct Hd as [Hd | [Hd | [Hd | []]]]; try discriminate. contradiction.
Qed.

Lemma undecodable_header_aborts_witness :
  In (EvHeader garbled_header) (trace (snd (main [guardian; weather] garbling_server)))
  /\ Py.int (Py.strip trim_chars garbled_header) = Raise ValueError
  /\ fst (main [guardian; weather] garbling_server) = Raise ValueError
  /\ (exists before,
        trace (snd (main [guardian; weather] garbling_server))
        = before ++ [EvHeader garbled_header; EvClose])
  /\ ~ In (EvSendall DONE) (trace (snd (main [guardian; weather] garbling_server))).
Proof.
  assert (Hin : In (EvHeader garbled_header)
                   (trace (snd (main [guardian; weather] garbling_server)))).
  { vm_compute. find_in. }
  split; [exact Hin |]. split; [reflexivity |].
  apply (undecodable_header_aborts [guardian; weather] garbling_server garbled_header);
    [reflexivity | exact Hin | reflexivity].
Defined.

(** C8, counterexample.  One collector, and a server whose first
    acknowledgment has a header that does not decode and whose later
    ones would be fine: the run raises [ValueError] after a single
    send; the two attempts left are not used. *)
Lemma undecodable_header_not_retried :
  Py.int (Py.strip trim_chars garbled_header) = Raise ValueError
  /\ fst (main [weather] garbling_at_once_server) = Raise ValueError
  /\ trace (snd (main [weather] garbling_at_once_server))
     = [EvConnect; EvRequest weather; EvPrint Stderr [Obj (results weather)];
        EvSendall (frame_of weather); EvHeader garbled_header; EvClose].
Proof. repeat split; reflexivity. Qed.

(** ** A server that keeps rejecting *)

Section Rejection.


(** What an iteration does for a collector that is served and whose
    results serialise, in terms of its retry loop. *)
Lemma for_body_success total i c sd w data :
  is_success (request c) = true ->
  Json.dumps (results c) = Ok data ->
  for_body total i c sd w
  = let w2 := with_trace w (incoming w)
                ((trace w ++ [EvRequest c])
                   ++ [EvPrint Stderr [Obj (results c)]]) in
    match send_loop 3 data w2 with
    | (Raise e, w3) => (Raise e, w3)
    | (Ok m, w3) =>
        (Ok (Some data),
         with_trace w3 (incoming w3)
           (trace w3
              ++ (if Nat.eqb m 0
                  then [EvPrint Stdout [Text (FailedTooMany data); SysStderr]]
                  else [])
              ++ (if i <? total - 1 then [EvSendall NEXT] else [])))
    end.
Proof.
  intros Hok Hd. unfold for_body. unfold bind at 1. cbn [emit].
  fold (is_success (request c)). rewrite Hok.
  unfold print. unfold bind at 1. cbn [emit trace server_up incoming].
  rewrite Hd. cbv zeta. unfold bind at 1. unfold with_trace at 1.
  destruct (send_loop 3 data _) as [[m | e] w3]; [| reflexivity].
  unfold sendall, bind, emit, ret, with_trace.
  destruct (Nat.eqb m 0); destruct (i <? total - 1);
    cbn [fst snd trace server_up incoming app];
    rewrite ?app_nil_r, <- ?app_assoc, ?world_eta; reflexivity.
Qed.

End Rejection.



(** C4, at the failing input.  The first of two registered collectors
    is served and returns results that [json.dumps] has no encoding
    for: the [TypeError] is not a [JSONDecodeError], the handler does
    not catch it, and the run ends there: no frame, the second collector
    never requested, no [DONE]. *)
Lemma unserialisable_results_abort :
  Json.dumps (results broken) = Raise TypeError
  /\ issubclass TypeError JSONDecodeError = false
  /\ main [broken; weather] (world0 [ack MSG_OK_DONE])
     = (Raise TypeError,
        {| server_up := true;
           incoming := [ack MSG_OK_DONE];
           trace := [EvConnect; EvRequest broken;
                     EvPrint Stderr [Obj (results broken)]; EvClose] |}).
Proof. split; [reflexivity |]. split; reflexivity. Qed.

(** Whatever the collector, a serialisation failure ends the iteration
    with the [TypeError] of [json.dumps]; the handler of the [try]
    never runs. *)
Lemma serialisation_failure_propagates total i c sd w e :
  is_success (request c) = true ->
  Json.dumps (results c) = Raise e ->
  fst (for_body total i c sd w) = Raise TypeError.
Proof.
  intros Hok Hd.
  destruct (for_body_trace total i c sd w) as (tr & _ & _ & Hb).
  destruct Hb as [Hs | Hs Hd' | data m tr' Hs Hd' Hl | data e' tr' Hs Hd' Hl];
    congruence.
Qed.


(** * Further properties of the driver *)

(** ** Frames of payloads that fit in memory *)

Section FrameLayout.

Lemma digits_of_length fuel : forall n k,
  0 <= n < 10 ^ Z.of_nat (S k) ->
  (List.length (Py.digits_of fuel n []) <= S k)%nat.
Proof.
  induction fuel as [| fuel IH]; intros n k Hn; cbn [Py.digits_of].
  - cbn [List.length]. lia.
  - destruct (n / 10 =? 0) eqn:Hq; [cbn [List.length]; lia |].
    apply Z.eqb_neq in Hq.
    rewrite digits_of_app, length_app. cbn [List.length].
    destruct k as [| k].
    + exfalso. apply Hq. apply Z.div_small. change (10 ^ Z.of_nat 1) with 10 in Hn. lia.
    + assert (Hk : 0 <= n / 10 < 10 ^ Z.of_nat (S k)).
      { split; [apply Z.div_pos; lia |].
        apply Z.div_lt_upper_bound; [lia |].
        replace (Z.of_nat (S (S k))) with (Z.succ (Z.of_nat (S k))) in Hn by lia.
        rewrite Z.pow_succ_r in Hn by lia. lia. }
      specialize (IH (n / 10) k Hk). lia.
Qed.

Lemma str_length n :
  0 <= n <= PY_SSIZE_T_MAX -> (List.length (Py.str n) <= 19)%nat.
Proof.
  intros [Hlo Hhi]. unfold Py.str.
  destruct (n <? 0) eqn:Hneg; [apply Z.ltb_lt in Hneg; lia |].
  apply (digits_of_length _ n 18).
  unfold PY_SSIZE_T_MAX in Hhi.
  change (10 ^ Z.of_nat 19) with 10000000000000000000. lia.
Qed.

Lemma header_fits (data : bytes) :
  len data <= PY_SSIZE_T_MAX ->
  (List.length (header_text (len data)) <= 32)%nat.
Proof.
  intros H. unfold header_text. rewrite !length_app.
  assert (Hs : (List.length (Py.str (len data)) <= 19)%nat).
  { apply str_length. unfold len in *. lia. }
  change (List.length (b "<length ")) with 8%nat.
  change (List.length (b ">")) with 1%nat. lia.
Qed.


Lemma take_nothing s : take 0 s = [].
Proof. destruct s; reflexivity. Qed.

End FrameLayout.

(** X1.  Every payload that fits in memory (at most [PY_SSIZE_T_MAX]
    bytes) gets a header of exactly 32 bytes: the frame has 32 bytes
    more than the payload, begins with the padded text [<length N>] and
    goes on with the payload unchanged. *)
Theorem frame_layout (data : bytes) :
  len data <= PY_SSIZE_T_MAX ->
  List.length (add_length_header data) = (32 + List.length data)%nat
  /\ firstn 32 (add_length_header data) = Py.ljust 32 (header_text (len data))
  /\ skipn 32 (add_length_header data) = data.
Proof.
  intros H. pose proof (header_fits data H) as Hfit.
  assert (Hl : List.length (Py.ljust 32 (header_text (len data))) = 32%nat).
  { rewrite ljust_length. lia. }
  unfold add_length_header. fold (header_text (len data)).
  repeat split.
  - rewrite length_app, Hl. reflexivity.
  - rewrite <- Hl at 1. rewrite firstn_app, firstn_all, Nat.sub_diag.
    cbn [firstn]. apply app_nil_r.
  - rewrite <- Hl at 1. rewrite skipn_app, skipn_all, Nat.sub_diag.
    reflexivity.
Qed.

Lemma frame_layout_witness :
  len (b "[1, 22]") <= PY_SSIZE_T_MAX
  /\ List.length (add_length_header (b "[1, 22]"))
     = (32 + List.length (b "[1, 22]"))%nat
  /\ firstn 32 (add_length_header (b "[1, 22]"))
     = Py.ljust 32 (header_text (len (b "[1, 22]")))
  /\ skipn 32 (add_length_header (b "[1, 22]")) = b "[1, 22]".
Proof.
  split.
  - vm_compute. discriminate.
  - apply (frame_layout (b "[1, 22]")). vm_compute. discriminate.
Defined.



(** ** What the events of a run can be *)

Section RunFacts.

Lemma complaint_kinds status :
  complaint status = []
  \/ exists file args,
      complaint status = [EvPrint file args] /\ is_complaint file args.
Proof.
  unfold complaint, accept_status.
  destruct (Py.bytes_eqb status MSG_OK_DONE); [left; reflexivity |].
  destruct status as [| c status]; [left; reflexivity |].
  right.
  destruct (negb (Py.startswith (c :: status) (b "MSG-"))).
  { eexists; eexists; split; [reflexivity |].
    exists (c :: status). left. split; reflexivity. }
  destruct (negb (Py.endswith (c :: status) (b "-DONE"))).
  - eexists; eexists; split; [reflexivity |].
    exists (c :: status). right; left. split; reflexivity.
  - eexists; eexists; split; [reflexivity |].
    exists (c :: status). right; right. split; reflexivity.
Qed.

Lemma permitted_incl cs cs' ev :
  incl cs cs' -> permitted cs ev -> permitted cs' ev.
Proof.
  intros Hincl. destruct ev as [| c | file args | d | raw | n status |];
    cbn [permitted]; auto.
  - intros [(c & Hc & H) | [H | (c & data & Hc & H)]].
    + left. exists c. auto.
    + right; left. exact H.
    + right; right. exists c, data. auto.
  - intros [H | [H | (c & data & Hc & H)]]; auto.
    right; right. exists c, data. auto.
Qed.

Lemma permitted_complaint cs status : Forall (permitted cs) (complaint status).
Proof.
  destruct (complaint_kinds status) as [-> | (file & args & -> & H)].
  - constructor.
  - constructor; [| constructor]. right; left. exact H.
Qed.

Lemma requests_app tr1 tr2 : requests (tr1 ++ tr2) = requests tr1 ++ requests tr2.
Proof.
  induction tr1 as [| ev tr1 IH]; [reflexivity |].
  destruct ev; cbn [app requests]; rewrite IH; reflexivity.
Qed.

Lemma requests_complaint status : requests (complaint status) = [].
Proof.
  destruct (complaint_prints status) as [-> | (file & args & ->)]; reflexivity.
Qed.

Lemma count_NEXT_app l1 l2 :
  count_NEXT (l1 ++ l2) = (count_NEXT l1 + count_NEXT l2)%nat.
Proof. apply count_occ_app. Qed.

Lemma count_NEXT_repeat f k : f <> NEXT -> count_NEXT (repeat f k) = 0%nat.
Proof.
  intros Hf. unfold count_NEXT. apply count_occ_not_In.
  intros Hin. apply repeat_spec in Hin. congruence.
Qed.

Lemma frame_not_NEXT data : add_length_header data <> NEXT.
Proof.
  intros H. apply (f_equal (@List.length byte)) in H.
  unfold add_length_header in H. rewrite length_app, ljust_length in H.
  change (List.length NEXT) with 4%nat in H. lia.
Qed.

(** The retry loop, whatever its end: nothing but copies of the frame
    is sent, at most [m] of them; no collector is requested; the only
    exceptions are those of the header, of [recv] and of the status. *)
Lemma loop_trace_facts cs frame m r tr :
  permitted cs (EvSendall frame) ->
  loop_trace frame m r tr ->
  Forall (permitted cs) tr
  /\ requests tr = []
  /\ (exists k, sends tr = repeat frame k /\ (k <= m)%nat)
  /\ (forall e, r = Raise e -> fatal e).
Proof.
  intros Hf.
  induction 1 as [| m raw n Hn | m raw n status r tr Hn Hne Hns _ IH
                  | m raw n Hn | m raw Hn | m raw n e Hn He].
  - repeat split; [constructor | exists 0%nat; split; [reflexivity | lia] | discriminate].
  - repeat split.
    + constructor; [exact Hf |]. repeat (constructor; [exact I |]). constructor.
    + exists 1%nat. split; [reflexivity | lia].
    + discriminate.
  - destruct IH as (Hp & Hr & (k & Hk & Hle) & Hfatal).
    repeat split.
    + constructor; [exact Hf |]. constructor; [exact I |].
      constructor; [exact I |].
      apply Forall_app. split; [apply permitted_complaint | exact Hp].
    + cbn [requests]. rewrite requests_app, requests_complaint, Hr. reflexivity.
    + exists (S k). cbn [sends]. rewrite sends_app, sends_complaint, Hk.
      split; [reflexivity | lia].
    + exact Hfatal.
  - repeat split.
    + constructor; [exact Hf |]. repeat (constructor; [exact I |]). constructor.
    + exists 1%nat. split; [reflexivity | lia].
    + intros e He. injection He as <-. unfold fatal. auto 6.
  - repeat split.
    + constructor; [exact Hf |]. repeat (constructor; [exact I |]). constructor.
    + exists 1%nat. split; [reflexivity | lia].
    + intros e He. injection He as <-. unfold fatal. auto 6.
  - repeat split.
    + constructor; [exact Hf |]. repeat (constructor; [exact I |]). constructor.
    + exists 1%nat. split; [reflexivity | lia].
    + intros e' He'. injection He' as <-. unfold fatal.
      destruct He as [[_ ->] | [_ ->]]; auto 6.
Qed.

Lemma frame_of_not_NEXT c : frame_of c <> NEXT.
Proof.
  unfold frame_of. destruct (Json.dumps (results c));
    [apply frame_not_NEXT | discriminate].
Qed.

(** One iteration of the [for] loop, whatever its end. *)
Lemma body_trace_facts total i c sd r tr :
  body_trace total i c sd r tr ->
  Forall (permitted [c]) tr
  /\ requests tr = [c]
  /\ (exists k tail,
        sends tr = repeat (frame_of c) k ++ tail /\ (k <= 3)%nat
        /\ (tail = [] \/ tail = [NEXT] /\ (i <? total - 1) = true))
  /\ (forall e, r = Raise e -> fatal e).
Proof.
  intros [Hs | Hs Hd | data m tr' Hs Hd Hl | data e tr' Hs Hd Hl].
  - repeat split.
    + repeat constructor.
    + exists 0%nat, []. repeat split; auto.
    + discriminate.
  - repeat split.
    + constructor; [left; reflexivity |]. constructor; [| constructor].
      left. exists c. repeat split. left. reflexivity.
    + exists 0%nat, []. repeat split; auto.
    + intros e He. injection He as <-. unfold fatal. auto.
  - assert (Hf : permitted [c] (EvSendall (add_length_header data))).
    { right; right. exists c, data. repeat split; auto. left. reflexivity. }
    destruct (loop_trace_facts [c] _ _ _ _ Hf Hl) as (Hp & Hr & (k & Hk & Hle) & _).
    repeat split.
    + constructor; [left; reflexivity |]. constructor.
      { left. exists c. repeat split. left. reflexivity. }
      apply Forall_app. split; [exact Hp |].
      apply Forall_app. split.
      * destruct (Nat.eqb m 0); constructor; [| constructor].
        right; right. exists c, data. repeat split; auto. left. reflexivity.
      * destruct (i <? total - 1); constructor; [| constructor].
        left. reflexivity.
    + cbn [requests]. rewrite !requests_app, Hr.
      destruct (Nat.eqb m 0); destruct (i <? total - 1); reflexivity.
    + exists k, (if i <? total - 1 then [NEXT] else []).
      cbn [sends]. rewrite !sends_app, Hk.
      unfold frame_of. rewrite Hd.
      repeat split; [| exact Hle |].
      * destruct (Nat.eqb m 0); destruct (i <? total - 1); reflexivity.
      * destruct (i <? total - 1); auto.
    + discriminate.
  - assert (Hf : permitted [c] (EvSendall (add_length_header data))).
    { right; right. exists c, data. repeat split; auto. left. reflexivity. }
    destruct (loop_trace_facts [c] _ _ _ _ Hf Hl) as (Hp & Hr & (k & Hk & Hle) & Hfatal).
    repeat split.
    + constructor; [left; reflexivity |]. constructor; [| exact Hp].
      left. exists c. repeat split. left. reflexivity.
    + cbn [requests]. rewrite Hr. reflexivity.
    + exists k, []. cbn [sends]. rewrite Hk, app_nil_r.
      unfold frame_of. rewrite Hd. repeat split; auto.
    + intros e' He'. injection He' as <-. apply Hfatal. reflexivity.
Qed.

Lemma for_loop_facts cs : forall total i sd w,
  exists tr,
    trace (snd (for_loop total i cs sd w)) = trace w ++ tr
    /\ Forall (permitted cs) tr
    /\ (exists rest, cs = requests tr ++ rest
                     /\ (fst (for_loop total i cs sd w) = Ok tt -> rest = []))
    /\ (total = i + len cs -> (count_NEXT (sends tr) <= List.length cs - 1)%nat)
    /\ (forall e, fst (for_loop total i cs sd w) = Raise e -> fatal e).
Proof.
  induction cs as [| c cs IH]; intros total i sd w.
  - exists []. cbn. rewrite app_nil_r. repeat split; try constructor.
    + exists []. auto.
    + discriminate.
  - cbn [for_loop]. unfold bind.
    destruct (for_body_trace total i c sd w) as (tr1 & Htr1 & _ & Hb).
    apply body_trace_facts in Hb.
    destruct Hb as (Hp1 & Hr1 & (k & tail & Hs1 & _ & Htail) & Hf1).
    assert (Hp1' : Forall (permitted (c :: cs)) tr1).
    { eapply Forall_impl; [| exact Hp1]. intros ev. apply permitted_incl.
      intros x [-> | []]. left. reflexivity. }
    assert (Hc1 : (count_NEXT (sends tr1) <= (if (i <? total - 1)%Z then 1 else 0))%nat).
    { rewrite Hs1, count_NEXT_app, count_NEXT_repeat by apply frame_of_not_NEXT.
      destruct Htail as [-> | [-> ->]]; [| reflexivity].
      destruct (i <? total - 1); cbn; lia. }
    destruct (for_body total i c sd w) as [[sd1 | e] w1]; cbn [fst snd] in *.
    + destruct (IH total (i + 1) sd1 w1) as (tr2 & Htr2 & Hp2 & (rest & Hrest & Hdone) & Hc2 & Hf2).
      exists (tr1 ++ tr2). rewrite Htr2, Htr1, app_assoc.
      repeat split.
      * apply Forall_app. split; [exact Hp1' |].
        eapply Forall_impl; [| exact Hp2]. intros ev. apply permitted_incl.
        intros x Hx. right. exact Hx.
      * exists rest. rewrite requests_app, Hr1. cbn [app].
        split; [rewrite <- Hrest; reflexivity | exact Hdone].
      * intros Htotal. rewrite sends_app, count_NEXT_app.
        assert (Hc2' : (count_NEXT (sends tr2) <= List.length cs - 1)%nat).
        { apply Hc2. unfold len in *. cbn [List.length] in Htotal. lia. }
        cbn [List.length].
        destruct cs as [| c' cs'].
        -- destruct (i <? total - 1) eqn:Hi.
           ++ apply Z.ltb_lt in Hi. unfold len in Htotal. cbn in Htotal. lia.
           ++ cbn [List.length] in *. lia.
        -- cbn [List.length] in *. destruct (i <? total - 1); lia.
      * exact Hf2.
    + exists tr1. repeat split.
      * exact Htr1.
      * exact Hp1'.
      * exists cs. rewrite Hr1. split; [reflexivity | discriminate].
      * intros Htotal. cbn [List.length].
        destruct cs as [| c' cs'].
        -- destruct (i <? total - 1) eqn:Hi.
           ++ apply Z.ltb_lt in Hi. unfold len in Htotal. cbn in Htotal. lia.
           ++ cbn [List.length]. lia.
        -- cbn [List.length]. destruct (i <? total - 1); lia.
      * intros e' He'. injection He' as <-. apply Hf1. reflexivity.
Qed.

(** [main] in terms of its [for] loop. *)
Lemma main_unfold cs w :
  if server_up w
  then
    fst (main cs w)
    = fst (for_loop (len cs) 0 cs None
             (with_trace w (incoming w) (trace w ++ [EvConnect])))
    /\ trace (snd (main cs w))
       = trace (snd (for_loop (len cs) 0 cs None
                       (with_trace w (incoming w) (trace w ++ [EvConnect]))))
           ++ match fst (for_loop (len cs) 0 cs None
                           (with_trace w (incoming w) (trace w ++ [EvConnect]))) with
              | Ok _ => [EvSendall DONE]
              | Raise _ => []
              end
           ++ [EvClose]
  else
    fst (main cs w) = Raise ConnectionRefusedError
    /\ trace (snd (main cs w)) = trace w ++ [EvClose].
Proof.
  destruct (main cs w) as [r w'] eqn:H. cbn [fst snd].
  unfold main, with_socket, connect in H. unfold bind at 1 in H.
  unfold with_trace.
  destruct (server_up w) eqn:Hup.
  - cbn [emit] in H. unfold bind at 1 in H. rewrite ?Hup in H.
    match type of H with context [for_loop ?t ?i cs ?sd ?w1'] =>
      set (w1 := w1') in * end.
    clearbody w1.
    destruct (for_loop (len cs) 0 cs None w1) as [[[] | e] w2];
      cbn [sendall emit fst snd trace] in *; injection H as <- <-; cbn [trace].
    + rewrite <- app_assoc. split; reflexivity.
    + split; reflexivity.
  - cbn [emit fst snd trace] in H. injection H as <- <-. cbn [trace].
    split; reflexivity.
Qed.

(** The whole run, from an empty trace. *)
Lemma main_facts cs w :
  trace w = [] ->
  Forall (permitted cs) (trace (snd (main cs w)))
  /\ (exists rest, cs = requests (trace (snd (main cs w))) ++ rest
                   /\ (fst (main cs w) = Ok tt -> rest = []))
  /\ (count_NEXT (sends (trace (snd (main cs w)))) <= List.length cs - 1)%nat
  /\ (forall e, fst (main cs w) = Raise e -> fatal e).
Proof.
  intros Hw. pose proof (main_unfold cs w) as H.
  rewrite Hw in H. cbn [app] in H.
  destruct (server_up w).
  - destruct H as [Hr Htr].
    set (r := for_loop (len cs) 0 cs None (with_trace w (incoming w) [EvConnect])) in *.
    destruct (for_loop_facts cs (len cs) 0 None
                (with_trace w (incoming w) [EvConnect]))
      as (tr & Hloop & Hp & (rest & Hrest & Hdone) & Hc & Hf).
    fold r in Hloop, Hdone, Hf. cbn [with_trace trace app] in Hloop.
    rewrite Hr, Htr, Hloop. cbn [app].
    assert (Htail : Forall (permitted cs)
                      (match fst r with Ok _ => [EvSendall DONE] | Raise _ => [] end
                         ++ [EvClose])
               /\ requests (match fst r with Ok _ => [EvSendall DONE] | Raise _ => [] end
                              ++ [EvClose]) = []
               /\ count_NEXT (sends (match fst r with Ok _ => [EvSendall DONE]
                                           | Raise _ => [] end ++ [EvClose])) = 0%nat).
    { destruct (fst r) as [[] | e]; (split; [| split; reflexivity]).
      - constructor; [right; left; reflexivity |].
        constructor; [exact I | constructor].
      - constructor; [exact I | constructor]. }
    destruct Htail as (Hp' & Hr' & Hc').
    split; [| split; [| split]].
    + constructor; [exact I |]. apply Forall_app. split; assumption.
    + exists rest. cbn [requests]. rewrite requests_app, Hr', app_nil_r.
      split; assumption.
    + cbn [sends]. rewrite sends_app, count_NEXT_app, Hc'.
      specialize (Hc ltac:(lia)). lia.
    + exact Hf.
  - destruct H as [Hr Htr]. rewrite Hr, Htr.
    split; [| split; [| split]].
    + constructor; [exact I | constructor].
    + exists cs. split; [reflexivity | discriminate].
    + cbn. lia.
    + intros e He. injection He as <-. unfold fatal. auto.
Qed.

End RunFacts.

(** ** The retry loop on servers that give in, and on broken replies *)

Section Attempts.



End Attempts.

(** X3.  Whatever the server does and however the iteration ends, the
    [for] body for one collector sends nothing but copies of that
    collector's frame, at most three of them, followed by at most one
    [NEXT]. *)
Theorem at_most_three_attempts (total i : Z) (c : Client)
        (sd : option bytes) (w : world) :
  exists tr k tail,
    trace (snd (for_body total i c sd w)) = trace w ++ tr
    /\ sends tr = repeat (frame_of c) k ++ tail
    /\ (k <= 3)%nat
    /\ (tail = [] \/ tail = [NEXT]).
Proof.
  destruct (for_body_trace total i c sd w) as (tr & Htr & _ & Hb).
  apply body_trace_facts in Hb.
  destruct Hb as (_ & _ & (k & tail & Hs & Hk & Htail) & _).
  exists tr, k, tail. repeat split; try assumption.
  destruct Htail as [-> | [-> _]]; auto.
Qed.



(** ** Broken replies to the first attempt *)

Section FirstAttempt.

(** The iteration up to the header of the first acknowledgment, for a
    collector that is served and whose results serialise. *)
Lemma for_body_first_header total i c sd w data :
  is_success (request c) = true ->
  Json.dumps (results c) = Ok data ->
  for_body total i c sd w
  = let raw := fst (recv_bytes 32 (incoming w)) in
    let inc1 := snd (recv_bytes 32 (incoming w)) in
    let tr1 := trace w ++ [EvRequest c; EvPrint Stderr [Obj (results c)];
                           EvSendall (add_length_header data); EvHeader raw] in
    match Py.int (Py.strip trim_chars raw) with
    | Raise e => (Raise e, with_trace w inc1 tr1)
    | Ok n =>
        if n <? 0 then (Raise ValueError, with_trace w inc1 tr1)
        else if PY_SSIZE_T_MAX <? n
             then (Raise OverflowError, with_trace w inc1 tr1)
             else if Py.bytes_eqb (fst (recv_bytes n inc1)) []
                  then (Raise InterruptedError,
                        with_trace w (snd (recv_bytes n inc1))
                                   (tr1 ++ [EvStatus n []]))
                  else for_body total i c sd w
    end.
Proof.
  intros Hok Hd. cbv zeta.
  destruct (Py.int (Py.strip trim_chars (fst (recv_bytes 32 (incoming w)))))
    as [n | e] eqn:Hint.
  - destruct (n <? 0) eqn:Hneg;
      [| destruct (PY_SSIZE_T_MAX <? n) eqn:Hbig;
         [| destruct (Py.bytes_eqb (fst (recv_bytes n (snd (recv_bytes 32 (incoming w))))) [])
              eqn:Hempty; [| reflexivity]]];
      rewrite (for_body_success total i c sd w data Hok Hd); cbv zeta;
      rewrite send_loop_step; cbv zeta; cbn [with_trace incoming trace server_up];
      rewrite Hint, Hneg, ?Hbig.
    + rewrite <- !app_assoc. reflexivity.
    + rewrite <- !app_assoc. reflexivity.
    + apply bytes_eqb_eq in Hempty. rewrite Hempty, verdict_empty.
      change (complaint []) with (@nil event).
      rewrite app_nil_r, <- !app_assoc. reflexivity.
  - rewrite (for_body_success total i c sd w data Hok Hd); cbv zeta.
    rewrite send_loop_step; cbv zeta. cbn [with_trace incoming trace server_up].
    rewrite Hint, <- !app_assoc. reflexivity.
Qed.

End FirstAttempt.

(** X5.  An acknowledgment whose header decodes to a negative size is
    fatal: [recv] refuses the size, and the iteration raises
    [ValueError] right after the header, the frame sent once, no status
    read. *)
Theorem negative_size_is_fatal (total i : Z) (c : Client) (sd : option bytes)
        (w : world) (data : bytes) (n : Z) :
  is_success (request c) = true ->
  Json.dumps (results c) = Ok data ->
  Py.int (Py.strip trim_chars (fst (recv_bytes 32 (incoming w)))) = Ok n ->
  n < 0 ->
  fst (for_body total i c sd w) = Raise ValueError
  /\ trace (snd (for_body total i c sd w))
     = trace w ++ [EvRequest c; EvPrint Stderr [Obj (results c)];
                   EvSendall (add_length_header data);
                   EvHeader (fst (recv_bytes 32 (incoming w)))].
Proof.
  intros Hok Hd Hint Hn.
  rewrite (for_body_first_header total i c sd w data Hok Hd). cbv zeta.
  rewrite Hint. apply Z.ltb_lt in Hn. rewrite Hn. split; reflexivity.
Qed.

Lemma negative_size_is_fatal_witness :
  Py.int (Py.strip trim_chars (fst (recv_bytes 32 (incoming negative_server))))
  = Ok (-5)
  /\ fst (for_body 1 0 weather None negative_server) = Raise ValueError
  /\ trace (snd (for_body 1 0 weather None negative_server))
     = trace negative_server
         ++ [EvRequest weather; EvPrint Stderr [Obj (results weather)];
             EvSendall (add_length_header (b "[1, 22]"));
             EvHeader (fst (recv_bytes 32 (incoming negative_server)))].
Proof.
  split; [reflexivity |].
  apply (negative_size_is_fatal 1 0 weather None negative_server (b "[1, 22]") (-5));
    [reflexivity | reflexivity | reflexivity | lia].
Defined.

(** X6.  An acknowledgment that announces zero bytes is taken for a
    closed connection: [recv(0)] returns the empty bytes, whatever the
    server has sent after the header, and the iteration raises
    [InterruptedError] on the first attempt. *)
Theorem zero_size_is_closed (total i : Z) (c : Client) (sd : option bytes)
        (w : world) (data : bytes) :
  is_success (request c) = true ->
  Json.dumps (results c) = Ok data ->
  Py.int (Py.strip trim_chars (fst (recv_bytes 32 (incoming w)))) = Ok 0 ->
  fst (for_body total i c sd w) = Raise InterruptedError
  /\ trace (snd (for_body total i c sd w))
     = trace w ++ [EvRequest c; EvPrint Stderr [Obj (results c)];
                   EvSendall (add_length_header data);
                   EvHeader (fst (recv_bytes 32 (incoming w)));
                   EvStatus 0 []].
Proof.
  intros Hok Hd Hint.
  rewrite (for_body_first_header total i c sd w data Hok Hd). cbv zeta.
  rewrite Hint. change (0 <? 0) with false. change (PY_SSIZE_T_MAX <? 0) with false.
  cbv iota.
  assert (Hzero : forall inc, fst (recv_bytes 0 inc) = []).
  { intros [| chunk inc]; [reflexivity |]. cbn [recv_bytes fst]. apply take_nothing. }
  rewrite Hzero. change (Py.bytes_eqb [] []) with true. cbv iota.
  cbn [fst snd with_trace trace]. rewrite <- app_assoc. split; reflexivity.
Qed.

Lemma zero_size_is_closed_witness :
  Py.int (Py.strip trim_chars (fst (recv_bytes 32 (incoming empty_status_server))))
  = Ok 0
  /\ fst (for_body 1 0 weather None empty_status_server) = Raise InterruptedError
  /\ trace (snd (for_body 1 0 weather None empty_status_server))
     = trace empty_status_server
         ++ [EvRequest weather; EvPrint Stderr [Obj (results weather)];
             EvSendall (add_length_header (b "[1, 22]"));
             EvHeader (fst (recv_bytes 32 (incoming empty_status_server)));
             EvStatus 0 []].
Proof.
  split; [reflexivity |].
  apply (zero_size_is_closed 1 0 weather None empty_status_server (b "[1, 22]"));
    reflexivity.
Defined.



(** ** Whole runs *)

Section WholeRuns.

Lemma in_sends d tr : In d (sends tr) <-> In (EvSendall d) tr.
Proof.
  induction tr as [| ev tr IH]; [reflexivity |].
  destruct ev; cbn [sends In]; rewrite ?IH; split;
    try (intros [H | H]; [discriminate | exact H]);
    try (intros H; right; exact H).
  - intros [-> | H]; auto.
  - intros [H | H]; [injection H as ->; auto | auto].
Qed.

Lemma calm_no_DONE tr : Forall calm tr -> ~ In DONE (sends tr).
Proof.
  intros Hcalm Hin. apply in_sends in Hin.
  rewrite Forall_forall in Hcalm. apply (Hcalm _ Hin). reflexivity.
Qed.

Lemma calm_no_close tr : Forall calm tr -> ~ In EvClose tr.
Proof.
  intros Hcalm Hin. rewrite Forall_forall in Hcalm. exact (Hcalm _ Hin).
Qed.

(** The events of a run that raised, before the socket is closed:
    no [DONE] among them, and no closing. *)
Lemma ends_raise_quiet (e : exn) body :
  ends (@Raise unit e) body -> ~ In DONE (sends body) /\ ~ In EvClose body.
Proof.
  intros (tr0 & tl & -> & Hcalm & Htl). split.
  - rewrite sends_app. intros Hin. apply in_app_or in Hin.
    destruct Hin as [Hin | Hin]; [exact (calm_no_DONE _ Hcalm Hin) |].
    destruct Htl as [-> | [(n & -> & _) | (raw & -> & _)]];
      cbn in Hin; exact Hin.
  - intros Hin. apply in_app_or in Hin.
    destruct Hin as [Hin | Hin]; [exact (calm_no_close _ Hcalm Hin) |].
    destruct Htl as [-> | [(n & -> & _) | (raw & -> & _)]];
      cbn in Hin; intuition discriminate.
Qed.

End WholeRuns.

(** X8.  [DONE] marks completion and nothing else: a run that ends
    normally has sent [DONE] once, as its last payload; a run that
    raises has not sent [DONE] at all. *)
Theorem DONE_marks_completion (API_CLIENTS : list Client) (w : world) :
  trace w = [] ->
  match fst (main API_CLIENTS w) with
  | Ok _ =>
      exists before,
        sends (trace (snd (main API_CLIENTS w))) = before ++ [DONE]
        /\ ~ In DONE before
  | Raise _ => ~ In DONE (sends (trace (snd (main API_CLIENTS w))))
  end.
Proof.
  intros Hw. pose proof (main_trace API_CLIENTS w) as H.
  destruct (fst (main API_CLIENTS w)) as [[] | e].
  - destruct H as (body & ks & -> & Hcalm & _). rewrite Hw.
    exists (sends body). cbn [app sends]. rewrite sends_app.
    split; [reflexivity | apply calm_no_DONE; exact Hcalm].
  - destruct H as (body & -> & Hends). rewrite Hw. cbn [app].
    rewrite sends_app. cbn [sends]. rewrite app_nil_r.
    apply (ends_raise_quiet e body Hends).
Qed.

Lemma DONE_marks_completion_witness :
  trace silent_server = []
  /\ match fst (main [guardian; weather; guardian] silent_server) with
     | Ok _ =>
         exists before,
           sends (trace (snd (main [guardian; weather; guardian] silent_server)))
           = before ++ [DONE]
           /\ ~ In DONE before
     | Raise _ =>
         ~ In DONE (sends (trace (snd (main [guardian; weather; guardian]
                                         silent_server))))
     end.
Proof.
  split; [reflexivity |].
  apply (DONE_marks_completion [guardian; weather; guardian] silent_server).
  reflexivity.
Defined.

(** X9.  The socket is closed on every exit, once: whatever the
    collectors and the server, and whether [main] returns or raises,
    the last event of the run is the closing of the socket, and there
    is no closing before it. *)
Theorem socket_closed_once (API_CLIENTS : list Client) (w : world) :
  trace w = [] ->
  exists before,
    trace (snd (main API_CLIENTS w)) = before ++ [EvClose]
    /\ ~ In EvClose before.
Proof.
  intros Hw. pose proof (main_trace API_CLIENTS w) as H.
  destruct (fst (main API_CLIENTS w)) as [[] | e].
  - destruct H as (body & ks & -> & Hcalm & _). rewrite Hw. cbn [app].
    exists (EvConnect :: body ++ [EvSendall DONE]).
    split; [cbn [app]; rewrite <- app_assoc; reflexivity |].
    intros [H | Hin]; [discriminate |].
    apply in_app_or in Hin. destruct Hin as [Hin | [H | []]];
      [exact (calm_no_close _ Hcalm Hin) | discriminate].
  - destruct H as (body & -> & Hends). rewrite Hw. cbn [app].
    exists body. split; [reflexivity |].
    apply (ends_raise_quiet e body Hends).
Qed.

Lemma socket_closed_once_witness :
  trace garbling_server = []
  /\ exists before,
      trace (snd (main [guardian; weather] garbling_server)) = before ++ [EvClose]
      /\ ~ In EvClose before.
Proof.
  split; [reflexivity |].
  apply (socket_closed_once [guardian; weather] garbling_server). reflexivity.
Defined.

(** X10.  In every run, [NEXT] is sent at most once less than there are
    registered collectors; with the single collector that the package
    registers, it is never sent. *)
Theorem NEXT_at_most_between (API_CLIENTS : list Client) (w : world) :
  trace w = [] ->
  (count_NEXT (sends (trace (snd (main API_CLIENTS w))))
   <= List.length API_CLIENTS - 1)%nat.
Proof.
  intros Hw. apply (main_facts API_CLIENTS w Hw).
Qed.

Lemma NEXT_at_most_between_witness :
  trace obliging_server = []
  /\ (count_NEXT (sends (trace (snd (main [guardian] obliging_server))))
      <= List.length [guardian] - 1)%nat.
Proof.
  split; [reflexivity |].
  apply (NEXT_at_most_between [guardian] obliging_server). reflexivity.
Defined.

(** X11.  The message of the [except] handler is dead: in no run does
    [main] print the text [Got bad json ...]. *)
Theorem bad_json_never_printed (API_CLIENTS : list Client) (w : world)
        (file : stream) (args : list printable)
        (client_name : string) (send_data : bytes) :
  trace w = [] ->
  In (EvPrint file args) (trace (snd (main API_CLIENTS w))) ->
  ~ In (Text (BadJson client_name send_data)) args.
Proof.
  intros Hw Hin. destruct (main_facts API_CLIENTS w Hw) as (Hp & _).
  rewrite Forall_forall in Hp. specialize (Hp _ Hin). cbn [permitted] in Hp.
  destruct Hp as [(c & _ & _ & ->) | [(status & Hc) | (c & data & _ & _ & _ & ->)]].
  - cbn [In]. intuition discriminate.
  - destruct Hc as [[_ ->] | [[_ ->] | [_ ->]]];
      cbn [In]; intuition discriminate.
  - cbn [In]. intuition discriminate.
Qed.

Lemma bad_json_never_printed_witness :
  trace (world0 [ack MSG_OK_DONE]) = []
  /\ In (EvPrint Stderr [Obj (results broken)])
        (trace (snd (main [broken; weather] (world0 [ack MSG_OK_DONE]))))
  /\ ~ In (Text (BadJson "broken" [])) [Obj (results broken)].
Proof.
  assert (Hin : In (EvPrint Stderr [Obj (results broken)])
                   (trace (snd (main [broken; weather] (world0 [ack MSG_OK_DONE]))))).
  { vm_compute. find_in. }
  split; [reflexivity |]. split; [exact Hin |].
  apply (bad_json_never_printed [broken; weather] (world0 [ack MSG_OK_DONE])
           Stderr [Obj (results broken)] "broken" []); [reflexivity | exact Hin].
Defined.

(** X12.  The registered collectors are requested front to back, each
    at most once: in every run the collectors requested, in the order
    of their requests, form an initial part of the registered list, and
    the whole list when the run ends normally. *)
Theorem collectors_requested_in_order (API_CLIENTS : list Client) (w : world) :
  trace w = [] ->
  exists not_reached,
    API_CLIENTS = requests (trace (snd (main API_CLIENTS w))) ++ not_reached
    /\ match fst (main API_CLIENTS w) with
       | Ok _ => not_reached = []
       | Raise _ => True
       end.
Proof.
  intros Hw. destruct (main_facts API_CLIENTS w Hw) as (_ & (rest & Hrest & Hdone) & _).
  exists rest. split; [exact Hrest |].
  destruct (fst (main API_CLIENTS w)) as [[] | e]; [apply Hdone; reflexivity | exact I].
Qed.

Lemma collectors_requested_in_order_witness :
  trace silent_server = []
  /\ exists not_reached,
      [guardian; weather; guardian]
      = requests (trace (snd (main [guardian; weather; guardian] silent_server)))
          ++ not_reached
      /\ match fst (main [guardian; weather; guardian] silent_server) with
         | Ok _ => not_reached = []
         | Raise _ => True
         end.
Proof.
  split; [reflexivity |].
  apply (collectors_requested_in_order [guardian; weather; guardian] silent_server).
  reflexivity.
Defined.



(** X14.  Nothing else goes out: every payload that a run hands to
    [sendall] is [NEXT], [DONE], or the frame of the serialised results
    of a registered collector whose request succeeded. *)
Theorem only_frames_and_tokens_sent (API_CLIENTS : list Client) (w : world)
        (payload : bytes) :
  trace w = [] ->
  In payload (sends (trace (snd (main API_CLIENTS w)))) ->
  payload = NEXT \/ payload = DONE
  \/ exists c data,
      In c API_CLIENTS /\ is_success (request c) = true
      /\ Json.dumps (results c) = Ok data
      /\ payload = add_length_header data.
Proof.
  intros Hw Hin. destruct (main_facts API_CLIENTS w Hw) as (Hp & _).
  apply in_sends in Hin. rewrite Forall_forall in Hp.
  exact (Hp _ Hin).
Qed.

Lemma only_frames_and_tokens_sent_witness :
  trace hesitant_server = []
  /\ In (frame_of weather)
        (sends (trace (snd (main [guardian; offline; weather] hesitant_server))))
  /\ (frame_of weather = NEXT \/ frame_of weather = DONE
      \/ exists c data,
          In c [guardian; offline; weather] /\ is_success (request c) = true
          /\ Json.dumps (results c) = Ok data
          /\ frame_of weather = add_length_header data).
Proof.
  assert (Hin : In (frame_of weather)
                   (sends (trace (snd (main [guardian; offline; weather]
                                         hesitant_server))))).
  { vm_compute. find_in. }
  split; [reflexivity |]. split; [exact Hin |].
  apply (only_frames_and_tokens_sent [guardian; offline; weather] hesitant_server
           (frame_of weather)); [reflexivity | exact Hin].
Defined.
